(** * Session registry and request routing of the backwards-compatible MCP server

    A shallow embedding of [src/server.ts]: the module-level [transports]
    object, the three Express handlers ([/mcp], [/sse], [/messages]) and the
    [SIGINT] handler, followed by the properties of the routing logic.

    The protocol SDK (transport classes, [McpServer], [isInitializeRequest])
    and the HTTP framework are not part of the repository.  Whatever they
    decide at run time is supplied to the handlers as explicit outcome
    records, so each handler is a total function of the request, of the
    outcome of the library calls it makes, and of the state.  A handler is
    taken to run from its first statement to its last without another
    handler running in between at one of its [await]s. *)

From stdpp Require Import base tactics option list strings gmap.
From Stdlib Require Import ZArith Ascii String Lia.

Local Open Scope string_scope.
Local Open Scope list_scope.

(** ** JavaScript values that the handlers inspect *)

(** [req.query.<name>] as the framework's query parser yields it: a string,
    an array (items taken as strings) or a nested object. *)
Inductive QueryValue :=
| QString (s : string)
| QArray (items : list string)
| QObject.

(** Truthiness of [string | undefined] (header values, [transport.sessionId]). *)
Definition truthy_string (v : option string) : bool :=
  match v with
  | Some s => negb (String.eqb s "")
  | None => false
  end.

(** Truthiness of a query value: only [undefined] and the empty string are
    falsy, arrays and objects are always truthy. *)
Definition truthy_query (v : option QueryValue) : bool :=
  match v with
  | None => false
  | Some (QString s) => negb (String.eqb s "")
  | Some (QArray _) => true
  | Some QObject => true
  end.

(** Conversion to a property key, as done by [obj[v]]. *)
Definition to_property_key (v : option QueryValue) : string :=
  match v with
  | None => "undefined"
  | Some (QString s) => s
  | Some (QArray items) => String.concat "," items
  | Some QObject => "[object Object]"
  end.

(** ** Transports *)

(** The two classes stored in [transports]. *)
Inductive TransportClass :=
| StreamableHTTPServerTransport
| SSEServerTransport.

Global Instance TransportClass_eq_dec : EqDecision TransportClass.
Proof. solve_decision. Defined.

(** A transport object.  [t_ref] is the identity of the object (its
    allocation number); [t_eventStore] is the [eventStore] option given to
    the constructor.  The one field that changes after construction,
    [transport.sessionId], lives in the state, keyed by [t_ref]. *)
Record Transport := {
  t_ref : nat;
  t_class : TransportClass;
  t_eventStore : option nat;
}.

Global Instance Transport_eq_dec : EqDecision Transport.
Proof. solve_decision. Defined.

(** ** The [transports] object *)

(** What a property read [transports[k]] evaluates to: nothing, a transport
    object, or something inherited from the prototype (a function or the
    prototype object itself, never a transport). *)
Inductive Slot :=
| Undefined
| Instance (t : Transport)
| Inherited (name : string).

Definition truthy_slot (v : Slot) : bool :=
  match v with
  | Undefined => false
  | Instance _ => true
  | Inherited _ => true
  end.

(** [v instanceof c] *)
Definition instanceof (v : Slot) (c : TransportClass) : bool :=
  match v with
  | Instance t => bool_decide (t_class t = c)
  | _ => false
  end.

(** Names that every object literal inherits from [Object.prototype]; a
    property read finds them when the object has no own property of that
    name. *)
Definition Object_prototype : list string :=
  [ "constructor"; "__defineGetter__"; "__defineSetter__"; "hasOwnProperty";
    "__lookupGetter__"; "__lookupSetter__"; "isPrototypeOf";
    "propertyIsEnumerable"; "toString"; "valueOf"; "__proto__";
    "toLocaleString" ].

(** Own properties in insertion order, which is the order [for ... in]
    enumerates keys that are not array indices. *)
Definition Registry := list (string * Transport).

Module Registry.

Fixpoint own (r : Registry) (k : string) : option Transport :=
  match r with
  | [] => None
  | (k', t) :: r' => if String.eqb k' k then Some t else own r' k
  end.

(** [transports[k]] *)
Definition get (r : Registry) (k : string) : Slot :=
  match own r k with
  | Some t => Instance t
  | None => if bool_decide (k ∈ Object_prototype) then Inherited k else Undefined
  end.

(** [transports[k] = t]: an existing own property keeps its place, a new one
    is added last.  The keys the program assigns to are session ids drawn by
    [randomUUID()]; an assignment to ["__proto__"], which would not create a
    property, does not occur. *)
Fixpoint set (r : Registry) (k : string) (t : Transport) : Registry :=
  match r with
  | [] => [(k, t)]
  | (k', t') :: r' =>
      if String.eqb k' k then (k', t) :: r' else (k', t') :: set r' k t
  end.

(** [delete transports[k]]: never throws, absent keys included. *)
Fixpoint delete (r : Registry) (k : string) : Registry :=
  match r with
  | [] => []
  | (k', t') :: r' =>
      if String.eqb k' k then delete r' k else (k', t') :: delete r' k
  end.

Definition keys (r : Registry) : list string := r.*1.

End Registry.

(** ** Tools ([src/tools]) *)

Module Tools.

Inductive ZodType := ZodString.

(** [CallToolResult.content] items; the tools only produce text. *)
Inductive Content := TextContent (text : string).

(** [CallTool] of [tools/types.ts]; [paramsSchema] has the single field
    [name], and [callback] receives the value of that field. *)
Record CallTool := {
  name : string;
  description : string;
  paramsSchema : ZodType;
  callback : string -> list Content;
}.

Definition fakeTool : CallTool := {|
  name := "fake";
  description := "Fake tool";
  paramsSchema := ZodString;
  callback := fun name => [TextContent ("Hello " +:+ name +:+ "!")];
|}.

End Tools.

(** ** Protocol servers *)

(** An [McpServer] object: its identity and the tools registered on it by
    [server.tool], in registration order. *)
Record McpServer := {
  srv_ref : nat;
  registeredTools : list Tools.CallTool;
}.

(** [server.tool(name, description, paramsSchema, callback)].  The SDK
    refuses a second tool of a name it already has; the names of the tools
    that are registered here, one call per element of [tools], are distinct. *)
Definition server_tool (server : McpServer) (tool : Tools.CallTool) : McpServer :=
  {| srv_ref := srv_ref server;
     registeredTools := registeredTools server ++ [tool] |}.

(** ** Responses and observable effects *)

(** The object literal passed to [res.json]:
    [{ jsonrpc, error: { code, message }, id: null }]. *)
Module Envelope.

Record t := {
  jsonrpc : string;
  error_code : Z;
  error_message : string;
  id : option Z;
}.

End Envelope.

Inductive Body :=
| JsonBody (e : Envelope.t)
| TextBody (s : string).

Definition envelope (code : Z) (message : string) : Body :=
  JsonBody {| Envelope.jsonrpc := "2.0"; Envelope.error_code := code;
              Envelope.error_message := message; Envelope.id := None |}.

Definition WrongTransportForSession : Body :=
  envelope (-32000)%Z "Bad Request: Session exists but uses a different transport protocol".
Definition MissingToken : Body :=
  envelope (-32000)%Z "Bad Request: No token provided".
Definition InvalidSession : Body :=
  envelope (-32000)%Z "Bad Request: No valid session ID provided".
Definition InternalError : Body :=
  envelope (-32603)%Z "Internal server error".

(** What a handler does besides changing the state, in program order.
    [ConsoleLogValue msg v] is [console.log(msg, v)] where the value printed
    after the message comes from the request. *)
Inductive Effect :=
| ConsoleLog (msg : string)
| ConsoleLogValue (msg : string) (value : option QueryValue)
| ConsoleError (msg : string)
| Respond (status : Z) (body : Body)
| NewEventStore (ref : nat)
| NewTransport (t : Transport)
| Connect (server : McpServer) (t : Transport)
| HandleRequest (t : Transport)
| HandlePostMessage (t : Transport)
| Close (t : Transport)
| Rejected
| ProcessExit (code : Z).

(** ** Program state *)

Record State := {
  transports : Registry;
  (** [transport.sessionId] of every transport object that has one *)
  sessionIds : gmap nat string;
  (** every [server.connect(transport)] made so far *)
  connections : list (McpServer * Transport);
  (** allocation counter of [new] *)
  next_ref : nat;
}.

Definition initial : State :=
  {| transports := []; sessionIds := ∅; connections := []; next_ref := 0 |}.

Definition with_transports (r : Registry) (st : State) : State :=
  {| transports := r; sessionIds := sessionIds st;
     connections := connections st; next_ref := next_ref st |}.

Definition with_sessionId (t : Transport) (sid : string) (st : State) : State :=
  {| transports := transports st; sessionIds := <[t_ref t := sid]> (sessionIds st);
     connections := connections st; next_ref := next_ref st |}.

Definition with_connection (server : McpServer) (t : Transport) (st : State) : State :=
  {| transports := transports st; sessionIds := sessionIds st;
     connections := connections st ++ [(server, t)]; next_ref := next_ref st |}.

Definition alloc (n : nat) (st : State) : State :=
  {| transports := transports st; sessionIds := sessionIds st;
     connections := connections st; next_ref := next_ref st + n |}.

(** [transport.sessionId] *)
Definition sessionId_of (st : State) (t : Transport) : option string :=
  sessionIds st !! t_ref t.

(** A [string | undefined] used as a property key. *)
Definition key_of (v : option string) : string :=
  match v with
  | Some s => s
  | None => "undefined"
  end.

(** A method call on the value of a variable: it reaches the transport when
    the value is one, and is a [TypeError] otherwise. *)
Definition method_call {A} (v : Slot) (call : Transport -> A) (type_error : A) : A :=
  match v with
  | Instance t => call t
  | _ => type_error
  end.

(** ** Requests and library outcomes *)

Record McpRequest := {
  method : string;
  (** [req.headers["mcp-session-id"]] *)
  mcp_session_id : option string;
  (** [isInitializeRequest(req.body)] *)
  isInitializeRequest : bool;
  (** [req.query.token] *)
  token : option QueryValue;
}.

(** What [transport.handleRequest] did before control came back. *)
Record HandleOutcome := {
  (** the transport took a session id from [sessionIdGenerator], stored
      it in [transport.sessionId] and called [onsessioninitialized] *)
  ho_initialized : option string;
  (** the transport closed itself and called [onclose] *)
  ho_closed : bool;
  (** [res.headersSent] once the call is over *)
  ho_headersSent : bool;
  (** the call rejected *)
  ho_throws : bool;
}.

Record McpLibrary := {
  connect_throws : bool;
  handleRequest : HandleOutcome;
}.

Record SseLibrary := {
  (** the id the constructor of the SSE transport draws *)
  randomUUID : string;
  sse_connect_throws : bool;
}.

Record MessagesRequest := {
  (** [req.query.sessionId] *)
  query_sessionId : option QueryValue;
}.

(** What [transport.close] did: whether it got as far as calling [onclose],
    and whether it rejected. *)
Record CloseOutcome := {
  co_onclose : bool;
  co_throws : bool;
}.

(** ** The handlers *)

Section Server.

(** The exported [tools] array of [src/tools]; the module that assembles it
    is not among the sources, so it is a parameter. *)
Variable tools : list Tools.CallTool.

(** [getServer]: a new [McpServer] (allocated at [ref]) with every tool
    registered, in the order of [tools.forEach]. *)
Definition getServer (ref : nat) : McpServer :=
  fold_left server_tool tools {| srv_ref := ref; registeredTools := [] |}.

(** The [onsessioninitialized] option of the Streamable transport. *)
Definition onsessioninitialized (transport : Transport) (sessionId : string)
    (st : State) : State * list Effect :=
  (with_transports (Registry.set (transports st) sessionId transport) st,
   [ConsoleLog ("StreamableHTTP session initialized with ID: " +:+ sessionId)]).

(** [transport.onclose] of the Streamable transport. *)
Definition onclose (transport : Transport) (st : State) : State * list Effect :=
  let sid := sessionId_of st transport in
  if truthy_string sid && truthy_slot (Registry.get (transports st) (key_of sid)) then
    (with_transports (Registry.delete (transports st) (key_of sid)) st,
     [ConsoleLog ("Transport closed for session " +:+ key_of sid)])
  else (st, []).

(** The listener of the ["close"] event of the response of [/sse]. *)
Definition res_on_close (transport : Transport) (st : State) : State :=
  with_transports
    (Registry.delete (transports st) (key_of (sessionId_of st transport))) st.

(** The callbacks that run inside one [transport.handleRequest]. *)
Definition run_handleRequest (transport : Transport) (o : HandleOutcome)
    (st : State) : State * list Effect :=
  let '(st1, es1) :=
    match ho_initialized o with
    | Some sessionId =>
        onsessioninitialized transport sessionId (with_sessionId transport sessionId st)
    | None => (st, [])
    end in
  let '(st2, es2) := if ho_closed o then onclose transport st1 else (st1, []) in
  (st2, es1 ++ es2).

(** The [catch] block of the [/mcp] handler. *)
Definition catch_block (headersSent : bool) : list Effect :=
  ConsoleError "Error handling MCP request:" ::
  (if negb headersSent then [Respond 500 InternalError] else []).

(** [await transport.handleRequest(req, res, req.body)] and the [catch]
    around it. *)
Definition handle (transport : Slot) (o : HandleOutcome) (st : State)
    : State * list Effect :=
  method_call transport
    (fun t =>
       let '(st1, es) := run_handleRequest t o st in
       (st1, HandleRequest t :: es ++
             (if ho_throws o then catch_block (ho_headersSent o) else [])))
    (st, catch_block false).

(** [app.all("/mcp", ...)] *)
Definition app_all_mcp (req : McpRequest) (lib : McpLibrary) (st : State)
    : State * list Effect :=
  let received := ConsoleLog ("Received " +:+ method req +:+ " request to /mcp") in
  let sessionId := mcp_session_id req in
  if truthy_string sessionId
     && truthy_slot (Registry.get (transports st) (key_of sessionId)) then
    let existingTransport := Registry.get (transports st) (key_of sessionId) in
    if instanceof existingTransport StreamableHTTPServerTransport then
      let '(st1, es) := handle existingTransport (handleRequest lib) st in
      (st1, received :: es)
    else
      (st, [received; Respond 400 WrongTransportForSession])
  else if negb (truthy_string sessionId) && String.eqb (method req) "POST"
          && isInitializeRequest req then
    if negb (truthy_query (token req)) then
      (st, [received; Respond 400 MissingToken])
    else
      let eventStore := next_ref st in
      let transport :=
        {| t_ref := next_ref st + 1;
           t_class := StreamableHTTPServerTransport;
           t_eventStore := Some eventStore |} in
      let server := getServer (next_ref st + 2) in
      let st1 := with_connection server transport (alloc 3 st) in
      let setup :=
        [received;
         ConsoleLogValue "Initializing new session with token:" (token req);
         NewEventStore eventStore; NewTransport transport;
         Connect server transport] in
      if connect_throws lib then (st1, setup ++ catch_block false)
      else
        let '(st2, es) := handle (Instance transport) (handleRequest lib) st1 in
        (st2, setup ++ es)
  else
    (st, [received; Respond 400 InvalidSession]).

(** [app.get("/sse", ...)] *)
Definition app_get_sse (lib : SseLibrary) (st : State) : State * list Effect :=
  let transport :=
    {| t_ref := next_ref st; t_class := SSEServerTransport; t_eventStore := None |} in
  let st1 := with_sessionId transport (randomUUID lib) (alloc 1 st) in
  let st2 :=
    with_transports
      (Registry.set (transports st1) (key_of (sessionId_of st1 transport)) transport)
      st1 in
  let server := getServer (next_ref st2) in
  let st3 := with_connection server transport (alloc 1 st2) in
  (st3,
   [ConsoleLog "Received GET request to /sse (deprecated SSE transport)";
    NewTransport transport; Connect server transport]
   ++ (if sse_connect_throws lib then [Rejected] else [])).

(** [app.post("/messages", ...)]; [throws] tells whether
    [transport.handlePostMessage] rejects. *)
Definition app_post_messages (req : MessagesRequest) (throws : bool) (st : State)
    : State * list Effect :=
  let sessionId := to_property_key (query_sessionId req) in
  let existingTransport := Registry.get (transports st) sessionId in
  if instanceof existingTransport SSEServerTransport then
    let transport := existingTransport in
    if truthy_slot transport then
      (st, method_call transport
             (fun t => HandlePostMessage t :: (if throws then [Rejected] else []))
             [Rejected])
    else
      (st, [Respond 400 (TextBody "No transport found for sessionId")])
  else
    (st, [Respond 400 WrongTransportForSession]).

(** The callbacks that run inside one [transport.close()].  Only the
    Streamable transports were given an [onclose]; the SSE transports are
    removed by the listener on their response instead. *)
Definition run_close (transport : Transport) (o : CloseOutcome) (st : State)
    : State * list Effect :=
  if co_onclose o then
    match t_class transport with
    | StreamableHTTPServerTransport => onclose transport st
    | SSEServerTransport => (st, [])
    end
  else (st, []).

(** The body of [for (const sessionId in transports)] over the keys that
    are still to be visited; a key deleted before its turn is skipped. *)
Fixpoint for_in (close_of : Transport -> CloseOutcome) (ks : list string)
    (st : State) : State * list Effect :=
  match ks with
  | [] => (st, [])
  | sessionId :: ks' =>
      match Registry.own (transports st) sessionId with
      | None => for_in close_of ks' st
      | Some t =>
          let closing := ConsoleLog ("Closing transport for session " +:+ sessionId) in
          let o := close_of t in
          let '(st1, es1) := run_close t o st in
          let '(st2, es2) :=
            if co_throws o then
              (st1, [ConsoleError
                       ("Error closing transport for session " +:+ sessionId +:+ ":")])
            else
              (with_transports (Registry.delete (transports st1) sessionId) st1, []) in
          let '(st3, es3) := for_in close_of ks' st2 in
          (st3, closing :: Close t :: es1 ++ es2 ++ es3)
      end
  end.

(** [process.on("SIGINT", ...)] *)
Definition process_on_SIGINT (close_of : Transport -> CloseOutcome) (st : State)
    : State * list Effect :=
  let '(st1, es) := for_in close_of (Registry.keys (transports st)) st in
  (st1,
   ConsoleLog "Shutting down server..." :: es
   ++ [ConsoleLog "Server shutdown complete"; ProcessExit 0]).

(** ** Executions *)

(** The shape of the ids that [randomUUID()] returns: 36 characters,
    hyphens at positions 8, 13, 18 and 23, lower-case hexadecimal digits
    elsewhere. *)
Definition is_hex_digit (c : ascii) : bool :=
  let n := nat_of_ascii c in
  ((48 <=? n) && (n <=? 57) || (97 <=? n) && (n <=? 102))%nat.

Fixpoint uuid_shape (i : nat) (s : string) : bool :=
  match s with
  | EmptyString => (i =? 36)%nat
  | String c s' =>
      (if bool_decide (i ∈ [8; 13; 18; 23]) then Ascii.eqb c "-" else is_hex_digit c)
      && uuid_shape (S i) s'
  end.

Definition is_uuid (s : string) : bool := uuid_shape 0 s.

(** What can happen to the running server before it is shut down. *)
Inductive Input :=
| McpIn (req : McpRequest) (lib : McpLibrary)
| SseIn (lib : SseLibrary)
| SseCloseIn (transport : Transport)
| MessagesIn (req : MessagesRequest) (throws : bool).

Definition step (i : Input) (st : State) : State * list Effect :=
  match i with
  | McpIn req lib => app_all_mcp req lib st
  | SseIn lib => app_get_sse lib st
  | SseCloseIn transport => (res_on_close transport st, [])
  | MessagesIn req throws => app_post_messages req throws st
  end.

(** What is assumed of the SDK and of the runtime:
    - session ids are drawn by [randomUUID()];
    - a Streamable transport assigns its session id once, while it handles
      the request it was created for, so never on a request that was
      routed by a session id;
    - a ["close"] event belongs to the response of an earlier [/sse]
      request. *)
Definition sdk_contract (st : State) (i : Input) : Prop :=
  match i with
  | McpIn req lib =>
      match ho_initialized (handleRequest lib) with
      | Some sessionId =>
          is_uuid sessionId = true ∧ truthy_string (mcp_session_id req) = false
      | None => True
      end
  | SseIn lib => is_uuid (randomUUID lib) = true
  | SseCloseIn transport =>
      t_class transport = SSEServerTransport ∧ transport ∈ (connections st).*2
  | MessagesIn _ _ => True
  end.

Inductive reachable : State -> Prop :=
| reachable_initial : reachable initial
| reachable_step st i :
    reachable st -> sdk_contract st i -> reachable (step i st).1.

(** The invariant of the reachable states. *)
Record wf (st : State) : Prop := {
  wf_keys_nodup : NoDup (Registry.keys (transports st));
  wf_keys_uuid : ∀ k t, (k, t) ∈ transports st → is_uuid k = true;
  wf_sessionId : ∀ k t, (k, t) ∈ transports st → sessionId_of st t = Some k;
  wf_connected : ∀ k t, (k, t) ∈ transports st → t ∈ (connections st).*2;
  wf_servers_nodup : NoDup (srv_ref <$> (connections st).*1);
  wf_transports_nodup : NoDup (t_ref <$> (connections st).*2);
  wf_refs : ∀ server t, (server, t) ∈ connections st →
    srv_ref server < next_ref st ∧ t_ref t < next_ref st ∧
    ∀ e, t_eventStore t = Some e → e < next_ref st;
  wf_tools : ∀ server t, (server, t) ∈ connections st →
    registeredTools server = tools;
}.

End Server.

(** ** Reading a trace *)

(** The responses the router itself wrote. *)
Definition responses (es : list Effect) : list (Z * Body) :=
  omap (fun e => match e with Respond status body => Some (status, body) | _ => None end) es.

(** The transports a request was handed to. *)
Definition handoffs (es : list Effect) : list Transport :=
  omap (fun e => match e with
                 | HandleRequest t => Some t
                 | HandlePostMessage t => Some t
                 | _ => None
                 end) es.

(** The transports whose [close] was called. *)
Definition closes (es : list Effect) : list Transport :=
  omap (fun e => match e with Close t => Some t | _ => None end) es.

(** What was written with [console.error]. *)
Definition errors (es : list Effect) : list string :=
  omap (fun e => match e with ConsoleError msg => Some msg | _ => None end) es.

(** The exit codes the process was asked to exit with. *)
Definition exits (es : list Effect) : list Z :=
  omap (fun e => match e with ProcessExit code => Some code | _ => None end) es.

(** The session of the registry that [transport.close] leaves behind
    during shutdown: the call rejected, and the [onclose] that would have
    removed the entry did not run (an SSE transport has none). *)
Definition survives (close_of : Transport -> CloseOutcome) (entry : string * Transport) : bool :=
  co_throws (close_of entry.2)
  && negb (co_onclose (close_of entry.2)
           && bool_decide (t_class entry.2 = StreamableHTTPServerTransport)).

(** The message [console.error] gets when the [close] of an entry fails. *)
Definition close_error (entry : string * Transport) : string :=
  "Error closing transport for session " +:+ entry.1 +:+ ":".

(** ** A sample execution *)

Module Sample.

Definition tools : list Tools.CallTool := [Tools.fakeTool].

Definition id1 : string := "3b241101-e2bb-4255-8caf-4136c566a962".
Definition id2 : string := "9f1c2d3e-0a1b-4c2d-8e3f-5a6b7c8d9e0f".
Definition id3 : string := "0a0b0c0d-1e1f-4a2b-9c3d-4e5f6a7b8c9d".

(** [POST /mcp?token=abc] with an initialization body and no session id. *)
Definition initialize : McpRequest :=
  {| method := "POST"; mcp_session_id := None;
     isInitializeRequest := true; token := Some (QString "abc") |}.

(** The library accepts the initialization and names the session [sid]. *)
Definition accepts (sid : string) : McpLibrary :=
  {| connect_throws := false;
     handleRequest := {| ho_initialized := Some sid; ho_closed := false;
                         ho_headersSent := true; ho_throws := false |} |}.

(** The library answers a request of an existing session. *)
Definition answers : McpLibrary :=
  {| connect_throws := false;
     handleRequest := {| ho_initialized := None; ho_closed := false;
                         ho_headersSent := true; ho_throws := false |} |}.

(** The library fails, before or after the response was started. *)
Definition fails (headersSent : bool) : McpLibrary :=
  {| connect_throws := false;
     handleRequest := {| ho_initialized := None; ho_closed := false;
                         ho_headersSent := headersSent; ho_throws := true |} |}.

Definition streamable1 : Transport :=
  {| t_ref := 1; t_class := StreamableHTTPServerTransport; t_eventStore := Some 0 |}.
Definition sse3 : Transport :=
  {| t_ref := 3; t_class := SSEServerTransport; t_eventStore := None |}.

(** One Streamable session. *)
Definition one_session : State :=
  (step tools (McpIn initialize (accepts id1)) initial).1.

(** One Streamable and one legacy session. *)
Definition two_sessions : State :=
  (step tools (SseIn {| randomUUID := id2; sse_connect_throws := false |}) one_session).1.

(** A request of the Streamable session. *)
Definition post_to (sid : string) : McpRequest :=
  {| method := "POST"; mcp_session_id := Some sid;
     isInitializeRequest := false; token := None |}.

(** An initialization request with a token and a session-id header. *)
Definition initialize_with_header (sid : string) : McpRequest :=
  {| method := "POST"; mcp_session_id := Some sid;
     isInitializeRequest := true; token := Some (QString "abc") |}.

(** An initialization request without a token. *)
Definition initialize_without_token : McpRequest :=
  {| method := "POST"; mcp_session_id := None;
     isInitializeRequest := true; token := None |}.

(** [POST /messages?sessionId=sid] *)
Definition message_to (sid : string) : MessagesRequest :=
  {| query_sessionId := Some (QString sid) |}.

(** Every [close] succeeds and runs [onclose]. *)
Definition close_ok (t : Transport) : CloseOutcome :=
  {| co_onclose := true; co_throws := false |}.

(** The [close] of the SSE transports rejects. *)
Definition close_sse_fails (t : Transport) : CloseOutcome :=
  {| co_onclose := true; co_throws := bool_decide (t_class t = SSEServerTransport) |}.

End Sample.

(** ** More of the sample execution *)

Module Scenario.

(** A [DELETE] of a session: the library closes the transport while it
    handles the request. *)
Definition delete_of (sid : string) : McpRequest :=
  {| method := "DELETE"; mcp_session_id := Some sid;
     isInitializeRequest := false; token := None |}.

Definition terminates : McpLibrary :=
  {| connect_throws := false;
     handleRequest := {| ho_initialized := None; ho_closed := true;
                         ho_headersSent := true; ho_throws := false |} |}.

(** The library answers an initialization without initializing a session
    (as it does for a request whose headers it does not accept). *)
Definition declines : McpLibrary :=
  {| connect_throws := false;
     handleRequest := {| ho_initialized := None; ho_closed := false;
                         ho_headersSent := true; ho_throws := false |} |}.

(** [GET /mcp] without a session id. *)
Definition get_without_session : McpRequest :=
  {| method := "GET"; mcp_session_id := None;
     isInitializeRequest := false; token := None |}.

(** [server.connect] rejects. *)
Definition connect_fails : McpLibrary :=
  {| connect_throws := true;
     handleRequest := {| ho_initialized := None; ho_closed := false;
                         ho_headersSent := false; ho_throws := false |} |}.

(** The SSE transport of a new [/sse] request draws [sid]. *)
Definition draws (sid : string) : SseLibrary :=
  {| randomUUID := sid; sse_connect_throws := false |}.

Definition streamable6 : Transport :=
  {| t_ref := 6; t_class := StreamableHTTPServerTransport; t_eventStore := Some 5 |}.
Definition sse5 : Transport :=
  {| t_ref := 5; t_class := SSEServerTransport; t_eventStore := None |}.

End Scenario.

(** The event store a transport of each class is constructed with: a
    Streamable transport has the store that was allocated just before it,
    an SSE transport has none. *)
Definition store_matches_class (t : Transport) : Prop :=
  match t_class t with
  | StreamableHTTPServerTransport => t_eventStore t = Some (t_ref t - 1) ∧ (1 ≤ t_ref t)%nat
  | SSEServerTransport => t_eventStore t = None
  end.

(** What was written with [console.log]. *)
Definition logs (es : list Effect) : list string :=
  omap (fun e => match e with ConsoleLog msg => Some msg | _ => None end) es.

(** How often [msg] was written with [console.log]. *)
Definition logged (msg : string) (es : list Effect) : nat :=
  List.length (List.filter (String.eqb msg) (logs es)).


(** ** The test client ([src/unnamed/part_001]) *)

Module TestClient.

(** The argument of [new Client]. *)
Record Client := {
  name : string;
  version : string;
}.

(** A [StreamableHTTPClientTransport]: the URL it was built for and its
    [sessionId] property, which the SDK sets and clears. *)
Record ClientTransport := {
  url : string;
  transport_sessionId : option string;
}.

(** The module-level variables. *)
Record Globals := {
  client : option Client;
  transport : option ClientTransport;
  serverUrl : string;
  sessionId : option string;
}.

Definition start : Globals :=
  {| client := None; transport := None;
     serverUrl := "http://localhost:3000/mcp?token=test"; sessionId := None |}.

(** How an awaited call of the SDK ends. *)
Inductive Answer (A : Type) :=
| Resolves (a : A)
| Rejects (error : string).
Global Arguments Resolves {A} a.
Global Arguments Rejects {A} error.

(** How a function of the client ends. *)
Inductive Outcome (A : Type) :=
| Returned (a : A)
| Thrown (error : string).
Global Arguments Returned {A} a.
Global Arguments Thrown {A} error.

(** An element of [ListToolsResult["tools"]]. *)
Record ToolInfo := {
  tool_name : string;
  tool_description : string;
}.

(** [connect]; [answer] is how [client.connect(transport)] ends, with the
    [sessionId] of the transport once it has resolved. *)
Definition connect (answer : Answer (option string)) (g : Globals)
    : Globals * list Effect * Outcome unit :=
  let connecting := ConsoleLog ("Connecting to " +:+ serverUrl g +:+ "...") in
  let new_client := {| name := "test-client"; version := "1.0.0" |} in
  let new_transport := {| url := serverUrl g; transport_sessionId := sessionId g |} in
  match answer with
  | Rejects error =>
      ({| client := Some new_client; transport := Some new_transport;
          serverUrl := serverUrl g; sessionId := sessionId g |},
       [connecting], Thrown error)
  | Resolves sid =>
      ({| client := Some new_client;
          transport := Some {| url := serverUrl g; transport_sessionId := sid |};
          serverUrl := serverUrl g; sessionId := sid |},
       [connecting; ConsoleLog "Transport created with session ID:";
        ConsoleLog "Connected to MCP server"],
       Returned tt)
  end.

(** How the two awaited calls of [terminateSession] end:
    [transport.terminateSession()], with the [sessionId] of the transport
    afterwards, and [transport.close()]. *)
Record TerminateAnswers := {
  on_terminateSession : Answer (option string);
  on_close : Answer unit;
}.

(** [terminateSession]: it returns in every case, the [catch] absorbs what
    the awaited calls throw. *)
Definition terminateSession (answers : TerminateAnswers) (g : Globals)
    : Globals * list Effect :=
  match client g, transport g with
  | Some _, Some tr =>
      let terminating := ConsoleLog "Terminating session with ID:" in
      match on_terminateSession answers with
      | Rejects _ => (g, [terminating; ConsoleError "Error terminating session:"])
      | Resolves sid =>
          let tr' := {| url := url tr; transport_sessionId := sid |} in
          let terminated := ConsoleLog "Session terminated successfully" in
          if negb (truthy_string (transport_sessionId tr')) then
            let cleared := ConsoleLog "Session ID has been cleared" in
            match on_close answers with
            | Rejects _ =>
                ({| client := client g; transport := Some tr';
                    serverUrl := serverUrl g; sessionId := None |},
                 [terminating; terminated; cleared;
                  ConsoleError "Error terminating session:"])
            | Resolves _ =>
                ({| client := None; transport := None;
                    serverUrl := serverUrl g; sessionId := None |},
                 [terminating; terminated; cleared;
                  ConsoleLog "Transport closed after session termination"])
            end
          else
            ({| client := client g; transport := Some tr';
                serverUrl := serverUrl g; sessionId := sessionId g |},
             [terminating; terminated;
              ConsoleLog "Server responded with 405 Method Not Allowed (session termination not supported)";
              ConsoleLog "Session ID is still active:"])
      end
  | _, _ => (g, [])
  end.

(** [listTools]; [answer] is how the [tools/list] request ends. *)
Definition listTools (answer : Answer (list ToolInfo)) (g : Globals)
    : Outcome (list ToolInfo) :=
  match client g with
  | None => Thrown "Not connected to server."
  | Some _ =>
      match answer with
      | Resolves tools => Returned tools
      | Rejects error => Thrown error
      end
  end.

(** [callTool]; [answer] is how the [tools/call] request ends, with the
    [content] of its result. *)
Definition callTool (name : string) (answer : Answer (list Tools.Content))
    (g : Globals) : list Effect * Outcome (list Tools.Content) :=
  match client g with
  | None => ([], Thrown "Not connected to server.")
  | Some _ =>
      let calling := ConsoleLog ("Calling tool '" +:+ name +:+ "' with args:") in
      match answer with
      | Resolves content => ([calling], Returned content)
      | Rejects error => ([calling], Thrown error)
      end
  end.

(** How the awaited calls of one run of [main] end; the [tools/call]
    request is answered by tool name and by the [name] argument. *)
Record Answers := {
  on_connect : Answer (option string);
  on_listTools : Answer (list ToolInfo);
  on_callTool : string -> string -> Answer (list Tools.Content);
  on_terminate : TerminateAnswers;
}.

Definition expectedGreeting : string := "Hello John!".

(** The double quote character, as a string. *)
Definition quote : string := String (Ascii.ascii_of_nat 34) EmptyString.

(** The body of [main] up to its last statement, the call of
    [terminateSession]. *)
Definition main_body (answers : Answers) (g : Globals)
    : Globals * list Effect * Outcome unit :=
  let '(g1, es1, connected) := connect (on_connect answers) g in
  match connected with
  | Thrown error => (g1, es1, Thrown error)
  | Returned _ =>
      match listTools (on_listTools answers) g1 with
      | Thrown error => (g1, es1, Thrown error)
      | Returned tools =>
          let available := ConsoleLog "Available tools:" in
          match List.find (fun tool => String.eqb (tool_name tool) "fake") tools with
          | None => (g1, es1 ++ [available], Thrown "Fake tool not found")
          | Some tool =>
              let '(es2, called) :=
                callTool (tool_name tool) (on_callTool answers (tool_name tool) "John") g1 in
              match called with
              | Thrown error => (g1, es1 ++ [available] ++ es2, Thrown error)
              | Returned [] =>
                  (g1, es1 ++ [available] ++ es2,
                   Thrown "TypeError: Cannot read properties of undefined (reading 'text')")
              | Returned (Tools.TextContent text :: _) =>
                  if negb (String.eqb text expectedGreeting) then
                    (g1, es1 ++ [available] ++ es2,
                     Thrown ("Expected tool result to contain " +:+ quote
                             +:+ expectedGreeting +:+ quote +:+ ", but got: "
                             +:+ quote +:+ text +:+ quote))
                  else
                    (g1, es1 ++ [available] ++ es2
                         ++ [ConsoleLog "All tests passed successfully!"],
                     Returned tt)
              end
          end
      end
  end.

(** [main()] with the handler of [main().catch]. *)
Definition main (answers : Answers) (g : Globals) : Globals * list Effect :=
  let '(g1, es1, done) := main_body answers g in
  let '(g2, es2) := terminateSession (on_terminate answers) g1 in
  match done with
  | Returned _ => (g2, es1 ++ es2)
  | Thrown _ =>
      (g2, es1 ++ [ConsoleError "Error running test:"] ++ es2 ++ [ProcessExit 1])
  end.

(** The test passes: every awaited call up to the tool call resolves, a
    tool named ["fake"] is listed, and the first item of what its call
    returns is the expected greeting. *)
Definition passes (answers : Answers) : Prop :=
  ∃ sid tools tool rest,
    on_connect answers = Resolves sid ∧
    on_listTools answers = Resolves tools ∧
    List.find (fun tool => String.eqb (tool_name tool) "fake") tools = Some tool ∧
    on_callTool answers "fake" "John"
      = Resolves (Tools.TextContent expectedGreeting :: rest).

(** The answers of a server that lists the tool of [src/tools] and
    answers its call with what the [callback] of [fakeTool] returns. *)
Definition fake_server (sid : string) : Answers :=
  {| on_connect := Resolves (Some sid);
     on_listTools :=
       Resolves [{| tool_name := Tools.name Tools.fakeTool;
                    tool_description := Tools.description Tools.fakeTool |}];
     on_callTool := fun _ arg => Resolves (Tools.callback Tools.fakeTool arg);
     on_terminate := {| on_terminateSession := Resolves None; on_close := Resolves tt |} |}.

End TestClient.

(** * Properties *)

(** ** The JavaScript readings, on examples *)

Example absent_query_value_is_the_key_undefined :
  to_property_key None = "undefined".
Proof. reflexivity. Qed.

Example array_query_value_is_joined :
  to_property_key (Some (QArray ["a"; "b"])) = "a,b".
Proof. reflexivity. Qed.

Example empty_token_is_falsy_and_array_token_truthy :
  truthy_query (Some (QString "")) = false ∧ truthy_query (Some (QArray [""])) = true.
Proof. split; reflexivity. Qed.

Example inherited_property_is_truthy_and_no_transport :
  Registry.get [] "constructor" = Inherited "constructor" ∧
  truthy_slot (Registry.get [] "constructor") = true ∧
  instanceof (Registry.get [] "constructor") StreamableHTTPServerTransport = false ∧
  instanceof (Registry.get [] "constructor") SSEServerTransport = false.
Proof. repeat split; reflexivity. Qed.

Example sample_ids_are_uuids :
  is_uuid Sample.id1 = true ∧ is_uuid Sample.id2 = true ∧ is_uuid Sample.id3 = true ∧
  is_uuid "" = false ∧ is_uuid "constructor" = false.
Proof. repeat split; reflexivity. Qed.

(** The check of the test client: the tool named ["fake"] is listed and
    greets its argument. *)
Example fake_tool_is_registered_and_greets :
  Tools.name <$> registeredTools (getServer Sample.tools 0) = ["fake"] ∧
  Tools.callback Tools.fakeTool "John" = [Tools.TextContent "Hello John!"].
Proof. split; reflexivity. Qed.

(** ** The registry operations *)

Section RegistryFacts.

Implicit Types (r : Registry) (k : string) (t : Transport).

Lemma own_elem_of r k t : Registry.own r k = Some t → (k, t) ∈ r.
Proof.
  induction r as [|[k' t'] r IH]; simpl; [done|].
  destruct (String.eqb_spec k' k) as [->|Hne].
  - intros [= ->]. left.
  - intros H. right. auto.
Qed.

Lemma own_None r k : Registry.own r k = None ↔ k ∉ Registry.keys r.
Proof.
  unfold Registry.keys.
  induction r as [|[k' t'] r IH]; simpl.
  - split; [intros _; apply not_elem_of_nil | done].
  - rewrite not_elem_of_cons.
    destruct (String.eqb_spec k' k) as [->|Hne]; [naive_solver|].
    rewrite IH. naive_solver.
Qed.

Lemma own_is_Some r k : is_Some (Registry.own r k) ↔ k ∈ Registry.keys r.
Proof.
  rewrite <-not_eq_None_Some, own_None.
  split; [apply dec_stable | auto].
Qed.

Lemma elem_of_keys r k t : (k, t) ∈ r → k ∈ Registry.keys r.
Proof. intros H. unfold Registry.keys. apply (list_elem_of_fmap_2 fst) in H. done. Qed.

Lemma elem_of_own r k t :
  NoDup (Registry.keys r) → (k, t) ∈ r → Registry.own r k = Some t.
Proof.
  unfold Registry.keys.
  induction r as [|[k' t'] r IH]; simpl; intros Hnd Hin.
  - by apply elem_of_nil in Hin.
  - apply NoDup_cons in Hnd as [Hk' Hnd].
    apply elem_of_cons in Hin as [[= <- <-]|Hin].
    + by rewrite String.eqb_refl.
    + destruct (String.eqb_spec k' k) as [->|Hne]; [|auto].
      exfalso. apply Hk'. by eapply elem_of_keys.
Qed.

Lemma elem_of_set r k t k' t' :
  (k', t') ∈ Registry.set r k t → (k', t') = (k, t) ∨ (k', t') ∈ r.
Proof.
  induction r as [|[k0 t0] r IH]; simpl.
  - intros [->|H]%elem_of_cons; [by left | by apply elem_of_nil in H].
  - destruct (String.eqb_spec k0 k) as [->|Hne].
    + intros [->|H]%elem_of_cons; [by left | right; by right].
    + intros [->|H]%elem_of_cons; [right; left|].
      destruct (IH H) as [?|?]; [by left | right; by right].
Qed.

Lemma keys_set r k t k' :
  k' ∈ Registry.keys (Registry.set r k t) ↔ k' = k ∨ k' ∈ Registry.keys r.
Proof.
  unfold Registry.keys.
  induction r as [|[k0 t0] r IH]; simpl.
  - rewrite elem_of_cons. naive_solver.
  - destruct (String.eqb_spec k0 k) as [->|Hne]; simpl.
    + rewrite !elem_of_cons. naive_solver.
    + rewrite !elem_of_cons, IH. naive_solver.
Qed.

Lemma NoDup_keys_set r k t :
  NoDup (Registry.keys r) → NoDup (Registry.keys (Registry.set r k t)).
Proof.
  induction r as [|[k0 t0] r IH]; simpl; intros Hnd.
  - apply NoDup_singleton.
  - apply NoDup_cons in Hnd as [Hk0 Hnd].
    destruct (String.eqb_spec k0 k) as [->|Hne]; simpl.
    + by apply NoDup_cons.
    + apply NoDup_cons. split; [|by apply IH].
      fold (Registry.keys (Registry.set r k t)).
      rewrite keys_set. naive_solver.
Qed.

Lemma own_set_eq r k t : Registry.own (Registry.set r k t) k = Some t.
Proof.
  induction r as [|[k0 t0] r IH]; simpl.
  - by rewrite String.eqb_refl.
  - destruct (String.eqb_spec k0 k) as [->|Hne]; simpl.
    + by rewrite String.eqb_refl.
    + by apply String.eqb_neq in Hne as ->.
Qed.

Lemma own_set_ne r k t k' :
  k' ≠ k → Registry.own (Registry.set r k t) k' = Registry.own r k'.
Proof.
  intros Hne. induction r as [|[k0 t0] r IH]; simpl.
  - apply not_eq_sym, String.eqb_neq in Hne. by rewrite Hne.
  - destruct (String.eqb_spec k0 k) as [->|Hne0]; simpl.
    + apply not_eq_sym, String.eqb_neq in Hne. by rewrite Hne.
    + by rewrite IH.
Qed.

Lemma set_absent r k t :
  Registry.own r k = None → Registry.set r k t = r ++ [(k, t)].
Proof.
  induction r as [|[k0 t0] r IH]; simpl; [done|].
  destruct (String.eqb_spec k0 k) as [->|Hne]; [done|].
  intros H. by rewrite IH.
Qed.

Lemma elem_of_delete r k k' t' :
  (k', t') ∈ Registry.delete r k ↔ k' ≠ k ∧ (k', t') ∈ r.
Proof.
  induction r as [|[k0 t0] r IH]; simpl.
  - rewrite elem_of_nil. naive_solver.
  - destruct (String.eqb_spec k0 k) as [->|Hne].
    + rewrite IH, elem_of_cons. naive_solver.
    + rewrite !elem_of_cons, IH. naive_solver.
Qed.

Lemma keys_delete_sublist r k :
  Registry.keys (Registry.delete r k) `sublist_of` Registry.keys r.
Proof.
  unfold Registry.keys.
  induction r as [|[k0 t0] r IH]; simpl; [done|].
  destruct (String.eqb_spec k0 k) as [->|Hne]; simpl.
  - by apply sublist_cons.
  - by apply sublist_skip.
Qed.

Lemma NoDup_keys_delete r k :
  NoDup (Registry.keys r) → NoDup (Registry.keys (Registry.delete r k)).
Proof. intros Hnd. eapply sublist_NoDup; [exact Hnd | apply keys_delete_sublist]. Qed.

Lemma own_delete_eq r k : Registry.own (Registry.delete r k) k = None.
Proof.
  induction r as [|[k0 t0] r IH]; simpl; [done|].
  destruct (String.eqb_spec k0 k) as [->|Hne]; simpl; [done|].
  by apply String.eqb_neq in Hne as ->.
Qed.

Lemma own_delete_ne r k k' :
  k' ≠ k → Registry.own (Registry.delete r k) k' = Registry.own r k'.
Proof.
  intros Hne. induction r as [|[k0 t0] r IH]; simpl; [done|].
  destruct (String.eqb_spec k0 k) as [->|Hne0]; simpl.
  - apply not_eq_sym, String.eqb_neq in Hne. by rewrite Hne.
  - by rewrite IH.
Qed.

Lemma delete_absent r k : Registry.own r k = None → Registry.delete r k = r.
Proof.
  induction r as [|[k0 t0] r IH]; simpl; [done|].
  destruct (String.eqb_spec k0 k) as [->|Hne]; [done|].
  intros H. by rewrite IH.
Qed.

Lemma delete_idemp r k :
  Registry.delete (Registry.delete r k) k = Registry.delete r k.
Proof. apply delete_absent, own_delete_eq. Qed.

Lemma delete_app r1 r2 k :
  Registry.delete (r1 ++ r2) k = Registry.delete r1 k ++ Registry.delete r2 k.
Proof.
  induction r1 as [|[k0 t0] r1 IH]; simpl; [done|].
  destruct (String.eqb k0 k); simpl; by rewrite IH.
Qed.

Lemma own_app r1 r2 k :
  Registry.own (r1 ++ r2) k =
  match Registry.own r1 k with Some t => Some t | None => Registry.own r2 k end.
Proof.
  induction r1 as [|[k0 t0] r1 IH]; simpl; [done|].
  by destruct (String.eqb k0 k).
Qed.

Lemma get_own r k t : Registry.own r k = Some t → Registry.get r k = Instance t.
Proof. unfold Registry.get. by intros ->. Qed.

End RegistryFacts.

Lemma elem_of_set_NoDup (r : Registry) k t k' t' :
  NoDup (Registry.keys r) →
  (k', t') ∈ Registry.set r k t →
  (k' = k ∧ t' = t) ∨ (k' ≠ k ∧ (k', t') ∈ r).
Proof.
  intros Hnd Hin.
  destruct (decide (k' = k)) as [->|Hne].
  - left. split; [done|].
    apply (elem_of_own _ _ _ (NoDup_keys_set _ k t Hnd)) in Hin.
    rewrite own_set_eq in Hin. congruence.
  - right. split; [done|].
    apply elem_of_set in Hin as [[= ? ?]|?]; [done.. |]. done.
Qed.

(** ** Session ids *)

Lemma is_uuid_nonempty s : is_uuid s = true → s ≠ "".
Proof. intros H ->. discriminate H. Qed.

Lemma is_uuid_truthy s : is_uuid s = true → truthy_string (Some s) = true.
Proof.
  intros H%is_uuid_nonempty. simpl.
  by apply String.eqb_neq in H as ->.
Qed.

Lemma is_uuid_not_inherited s : is_uuid s = true → s ∉ Object_prototype.
Proof.
  intros H Hin. unfold Object_prototype in Hin.
  repeat (apply elem_of_cons in Hin as [->|Hin]; [discriminate H|]).
  by apply elem_of_nil in Hin.
Qed.

(** ** The invariant holds in every reachable state *)

#[local] Arguments handle : simpl never.
#[local] Arguments run_handleRequest : simpl never.
#[local] Arguments onclose : simpl never.

Section Invariant.

Variable tools : list Tools.CallTool.

Lemma fold_server_tool (l : list Tools.CallTool) (server : McpServer) :
  srv_ref (fold_left server_tool l server) = srv_ref server ∧
  registeredTools (fold_left server_tool l server) = registeredTools server ++ l.
Proof.
  revert server. induction l as [|tool l IH]; intros server; simpl.
  - by rewrite app_nil_r.
  - destruct (IH (server_tool server tool)) as [-> ->]. simpl.
    by rewrite <-app_assoc.
Qed.

Lemma getServer_ref ref : srv_ref (getServer tools ref) = ref.
Proof. unfold getServer. by destruct (fold_server_tool tools {| srv_ref := ref; registeredTools := [] |}) as [-> _]. Qed.

Lemma getServer_tools ref : registeredTools (getServer tools ref) = tools.
Proof. unfold getServer. by destruct (fold_server_tool tools {| srv_ref := ref; registeredTools := [] |}) as [_ ->]. Qed.

Lemma wf_initial : wf tools initial.
Proof.
  split; simpl; try (intros ? ? H; by apply elem_of_nil in H); apply NoDup_nil_2.
Qed.

Lemma wf_delete st k :
  wf tools st → wf tools (with_transports (Registry.delete (transports st) k) st).
Proof.
  intros [Hnd Hid Hsid Hconn Hsrv Htr Hrefs Htools].
  split; simpl; try done.
  - by apply NoDup_keys_delete.
  - intros k' t' [_ Hin]%elem_of_delete. eauto.
  - intros k' t' [_ Hin]%elem_of_delete. by apply Hsid in Hin.
  - intros k' t' [_ Hin]%elem_of_delete. eauto.
Qed.

Lemma wf_onclose st t : wf tools st → wf tools (onclose t st).1.
Proof.
  intros Hwf. unfold onclose.
  destruct (_ && _); simpl; [by apply wf_delete | done].
Qed.

Lemma wf_res_on_close st t : wf tools st → wf tools (res_on_close t st).
Proof. apply wf_delete. Qed.

(** A state that differs by one more connection, of new objects. *)
Lemma wf_connection st server t n :
  wf tools st →
  next_ref st ≤ srv_ref server < next_ref st + n →
  next_ref st ≤ t_ref t < next_ref st + n →
  (∀ e, t_eventStore t = Some e → e < next_ref st + n) →
  registeredTools server = tools →
  wf tools (with_connection server t (alloc n st)).
Proof.
  intros [Hnd Hid Hsid Hconn Hsrv Htr Hrefs Htools] Hs Ht He Htl.
  split; simpl; try done.
  - intros k t' Hin. rewrite fmap_app, elem_of_app. left. eauto.
  - rewrite !fmap_app. apply NoDup_app. split_and!; [done | | apply NoDup_singleton].
    intros x Hx. simpl. rewrite list_elem_of_singleton. intros ->.
    apply list_elem_of_fmap in Hx as (s' & Hs' & Hx).
    apply list_elem_of_fmap in Hx as ([s'' t''] & -> & Hx).
    apply Hrefs in Hx. simpl in *. lia.
  - rewrite !fmap_app. apply NoDup_app. split_and!; [done | | apply NoDup_singleton].
    intros x Hx. simpl. rewrite list_elem_of_singleton. intros ->.
    apply list_elem_of_fmap in Hx as (t' & Ht' & Hx).
    apply list_elem_of_fmap in Hx as ([s'' t''] & -> & Hx).
    apply Hrefs in Hx. simpl in *. lia.
  - intros s' t' [Hin|Hin]%elem_of_app.
    + apply Hrefs in Hin as (? & ? & Hin). split_and!; [lia.. |].
      intros e Hev. apply Hin in Hev. lia.
    + apply list_elem_of_singleton in Hin as [= -> ->].
      split_and!; [lia.. | done].
  - intros s' t' [Hin|Hin]%elem_of_app; [eauto|].
    by apply list_elem_of_singleton in Hin as [= -> ->].
Qed.

(** Storing a connected transport under the session id it has just been
    given. *)
Lemma wf_register st t sid :
  wf tools st →
  is_uuid sid = true →
  t ∈ (connections st).*2 →
  (∀ k t', (k, t') ∈ transports st → t_ref t' ≠ t_ref t) →
  wf tools (with_transports (Registry.set (transports (with_sessionId t sid st)) sid t)
              (with_sessionId t sid st)).
Proof.
  intros [Hnd Hid Hsid Hconn Hsrv Htr Hrefs Htools] Hu Hc Hfresh.
  split; simpl; try done.
  - by apply NoDup_keys_set.
  - intros k t' [[-> ->]|[_ Hin]]%elem_of_set_NoDup; eauto.
  - unfold sessionId_of. simpl.
    intros k t' Hin.
    apply elem_of_set_NoDup in Hin as [[-> ->]|[_ Hin]]; [| |done].
    + apply lookup_insert_eq.
    + rewrite lookup_insert_ne; [by apply Hsid | by apply not_eq_sym, (Hfresh k)].
  - intros k t' [[-> ->]|[_ Hin]]%elem_of_set_NoDup; eauto.
Qed.

Lemma wf_run_handleRequest st t o :
  wf tools st →
  t ∈ (connections st).*2 →
  (∀ sid, ho_initialized o = Some sid →
     is_uuid sid = true ∧ ∀ k t', (k, t') ∈ transports st → t_ref t' ≠ t_ref t) →
  wf tools (run_handleRequest t o st).1.
Proof.
  intros Hwf Hc Hinit. unfold run_handleRequest.
  destruct (ho_initialized o) as [sid|]; simpl.
  - destruct (Hinit sid eq_refl) as [Hu Hfresh].
    pose proof (wf_register st t sid Hwf Hu Hc Hfresh) as Hwf'.
    destruct (ho_closed o); simpl; [|done].
    apply (wf_onclose _ t) in Hwf'. by destruct (onclose t _).
  - destruct (ho_closed o); simpl; [|done].
    apply (wf_onclose _ t) in Hwf. by destruct (onclose t _).
Qed.

Lemma handle_state st t o :
  (handle (Instance t) o st).1 = (run_handleRequest t o st).1.
Proof. unfold handle, method_call. by destruct (run_handleRequest t o st). Qed.

Lemma instanceof_Instance v c :
  instanceof v c = true → ∃ t, v = Instance t ∧ t_class t = c.
Proof.
  destruct v as [|t|]; simpl; try done.
  intros H%bool_decide_eq_true. eauto.
Qed.

Lemma get_Instance r k t : Registry.get r k = Instance t → (k, t) ∈ r.
Proof.
  unfold Registry.get. destruct (Registry.own r k) as [t'|] eqn:Hown.
  - intros [= ->]. by apply own_elem_of.
  - by case_bool_decide.
Qed.

Lemma wf_app_all_mcp st req lib :
  wf tools st → sdk_contract st (McpIn req lib) →
  wf tools (app_all_mcp tools req lib st).1.
Proof.
  intros Hwf Hctr. simpl in Hctr. unfold app_all_mcp.
  destruct (truthy_string (mcp_session_id req)) eqn:Hsid; simpl.
  - destruct (truthy_slot _); simpl; [|done].
    destruct (instanceof _ _) eqn:Hi; simpl; [|done].
    apply instanceof_Instance in Hi as (t & Hget & _). rewrite Hget.
    pose proof (handle_state st t (handleRequest lib)) as Hst.
    destruct (handle _ _ _) as [st1 es]. simpl in *. subst st1.
    apply wf_run_handleRequest; [done | |].
    + apply get_Instance in Hget. by eapply wf_connected.
    + intros sid Hinit. rewrite Hinit in Hctr. by destruct Hctr.
  - destruct (_ && isInitializeRequest req); simpl; [|done].
    destruct (truthy_query _); simpl; [|done].
    set (transport := {| t_ref := next_ref st + 1; t_class := _; t_eventStore := _ |}).
    set (server := getServer tools (next_ref st + 2)).
    assert (wf tools (with_connection server transport (alloc 3 st))) as Hwf1.
    { apply wf_connection; try done.
      - unfold server. rewrite getServer_ref. lia.
      - simpl. lia.
      - simpl. intros e [= <-]. lia.
      - apply getServer_tools. }
    destruct (connect_throws lib); [done|].
    pose proof (handle_state (with_connection server transport (alloc 3 st))
                  transport (handleRequest lib)) as Hst.
    destruct (handle _ _ _) as [st2 es]. cbn [fst] in *. subst st2.
    apply wf_run_handleRequest; [done | |].
    + simpl. rewrite fmap_app, elem_of_app. right. simpl. apply list_elem_of_singleton. done.
    + intros sid Hinit. rewrite Hinit in Hctr. destruct Hctr as [Hu _].
      split; [done|]. simpl. intros k t' Hin.
      apply (wf_connected _ _ Hwf) in Hin.
      apply list_elem_of_fmap in Hin as ([s'' t''] & -> & Hx).
      apply (wf_refs _ _ Hwf) in Hx. simpl in *. lia.
Qed.

Lemma wf_app_get_sse st lib :
  wf tools st → sdk_contract st (SseIn lib) →
  wf tools (app_get_sse tools lib st).1.
Proof.
  intros Hwf Hu. simpl in Hu. unfold app_get_sse. simpl.
  set (transport := {| t_ref := next_ref st; t_class := _; t_eventStore := _ |}).
  set (server := getServer tools (next_ref st + 1)).
  unfold sessionId_of. simpl. rewrite lookup_insert_eq. simpl.
  assert (wf tools (with_connection server transport (alloc 2 st))) as Hwf1.
  { apply wf_connection; try done.
    - unfold server. rewrite getServer_ref. lia.
    - simpl. lia. 
    - apply getServer_tools. }
  pose proof (wf_register _ transport (randomUUID lib) Hwf1 Hu) as Hwf2.
  simpl in Hwf2.
  assert (transport ∈ (connections st ++ [(server, transport)]).*2) as Hc.
  { rewrite fmap_app, elem_of_app. right. simpl. by apply list_elem_of_singleton. }
  assert (∀ k t', (k, t') ∈ transports st → t_ref t' ≠ next_ref st) as Hfresh.
  { intros k t' Hin.
    apply (wf_connected _ _ Hwf) in Hin.
    apply list_elem_of_fmap in Hin as ([s'' t''] & -> & Hx).
    apply (wf_refs _ _ Hwf) in Hx. simpl in *. lia. }
  specialize (Hwf2 Hc Hfresh). revert Hwf2.
  unfold with_transports, with_sessionId, with_connection, alloc. simpl.
  by replace (next_ref st + 1 + 1) with (next_ref st + 2) by lia.
Qed.

Lemma app_post_messages_state st req throws :
  (app_post_messages req throws st).1 = st.
Proof.
  unfold app_post_messages.
  destruct (instanceof _ _); [|done]. by destruct (truthy_slot _).
Qed.

Lemma wf_step st i :
  wf tools st → sdk_contract st i → wf tools (step tools i st).1.
Proof.
  intros Hwf Hctr. destruct i as [req lib|lib|t|req throws]; simpl.
  - by apply wf_app_all_mcp.
  - by apply wf_app_get_sse.
  - by apply wf_res_on_close.
  - by rewrite app_post_messages_state.
Qed.

Theorem reachable_wf st : reachable tools st → wf tools st.
Proof.
  induction 1 as [|st i _ IH Hctr]; [apply wf_initial | by apply wf_step].
Qed.

End Invariant.

(** ** A sample execution is an execution *)

Lemma sample_one_session_reachable : reachable Sample.tools Sample.one_session.
Proof.
  apply (reachable_step Sample.tools initial
           (McpIn Sample.initialize (Sample.accepts Sample.id1))).
  - apply reachable_initial.
  - simpl. split; reflexivity.
Qed.

Lemma sample_two_sessions_reachable : reachable Sample.tools Sample.two_sessions.
Proof.
  apply (reachable_step Sample.tools Sample.one_session
           (SseIn {| randomUUID := Sample.id2; sse_connect_throws := false |})).
  - apply sample_one_session_reachable.
  - reflexivity.
Qed.

Lemma sample_two_sessions_transports :
  transports Sample.two_sessions =
  [(Sample.id1, Sample.streamable1); (Sample.id2, Sample.sse3)].
Proof. reflexivity. Qed.

(** ** Routing *)

(** Closes a goal from [H : e ∈ es], where [es] is an explicit list that
    does not contain [e]. *)
Ltac not_in_trace H :=
  repeat (apply elem_of_cons in H as [H|H]; [discriminate H|]);
  by apply elem_of_nil in H.

Lemma reachable_key_truthy tools st k t :
  reachable tools st → Registry.own (transports st) k = Some t →
  truthy_string (Some k) = true.
Proof.
  intros Hwf%reachable_wf Hown%own_elem_of.
  eapply is_uuid_truthy, wf_keys_uuid; eauto.
Qed.

Lemma run_handleRequest_effects t o st :
  ∀ e, e ∈ (run_handleRequest t o st).2 → ∃ msg, e = ConsoleLog msg.
Proof.
  unfold run_handleRequest, onsessioninitialized, onclose.
  destruct (ho_initialized o), (ho_closed o); simpl;
    repeat (destruct (_ && _); simpl); intros e He;
    repeat (apply elem_of_cons in He as [->|He]; [by eexists|]);
    by apply elem_of_nil in He.
Qed.

Lemma omap_ConsoleLog {A} (f : Effect → option A) (es : list Effect) :
  (∀ msg, f (ConsoleLog msg) = None) →
  (∀ e, e ∈ es → ∃ msg, e = ConsoleLog msg) →
  omap f es = [].
Proof.
  intros Hf. induction es as [|e es IH]; intros Hes; simpl; [done|].
  destruct (Hes e) as [msg ->]; [left|].
  rewrite Hf. apply IH. intros e' He'. apply Hes. by right.
Qed.

Lemma catch_block_handoffs b : handoffs (catch_block b) = [].
Proof. by destruct b. Qed.

Lemma handle_handoffs t o st : handoffs (handle (Instance t) o st).2 = [t].
Proof.
  unfold handle, method_call.
  pose proof (run_handleRequest_effects t o st) as Hes.
  destruct (run_handleRequest t o st) as [st1 es]. simpl in *.
  unfold handoffs at 1. simpl. fold (handoffs (es ++ (if ho_throws o then catch_block (ho_headersSent o) else []))).
  unfold handoffs. rewrite omap_app.
  rewrite (omap_ConsoleLog _ es); [|done..].
  fold (handoffs (if ho_throws o then catch_block (ho_headersSent o) else [])).
  destruct (ho_throws o); [by rewrite catch_block_handoffs | done].
Qed.

(** C1. A request that names a session of the other protocol family is
    answered with status 400 and the JSON-RPC error envelope, changes
    nothing in the state, and reaches no transport: on [/mcp] when the
    session id of the header belongs to an SSE transport, on [/messages]
    when the session id of the query belongs to a Streamable transport or to
    no transport at all.  No request at all is handed to a transport of the
    other family. *)
Theorem cross_family_request_rejected (tools : list Tools.CallTool) (st : State) :
  reachable tools st →
  (∀ req lib sid t,
     mcp_session_id req = Some sid →
     Registry.own (transports st) sid = Some t →
     t_class t = SSEServerTransport →
     app_all_mcp tools req lib st =
       (st, [ConsoleLog ("Received " +:+ method req +:+ " request to /mcp");
             Respond 400 WrongTransportForSession])) ∧
  (∀ req throws,
     (Registry.own (transports st) (to_property_key (query_sessionId req)) = None ∨
      ∃ t, Registry.own (transports st) (to_property_key (query_sessionId req)) = Some t
           ∧ t_class t = StreamableHTTPServerTransport) →
     app_post_messages req throws st = (st, [Respond 400 WrongTransportForSession])) ∧
  (∀ req lib t,
     t ∈ handoffs (app_all_mcp tools req lib st).2 →
     t_class t = StreamableHTTPServerTransport) ∧
  (∀ req throws t,
     t ∈ handoffs (app_post_messages req throws st).2 →
     t_class t = SSEServerTransport).
Proof.
  intros Hreach. split_and!.
  - intros req lib sid t Hhdr Hown Hcls.
    unfold app_all_mcp. rewrite Hhdr.
    rewrite (reachable_key_truthy _ _ _ _ Hreach Hown). simpl.
    rewrite (get_own _ _ _ Hown). simpl.
    rewrite Hcls. reflexivity.
  - intros req throws Hown. unfold app_post_messages.
    destruct Hown as [Hown|(t & Hown & Hcls)].
    + unfold Registry.get. rewrite Hown.
      by case_bool_decide.
    + rewrite (get_own _ _ _ Hown). simpl. by rewrite Hcls.
  - intros req lib t. unfold app_all_mcp.
    destruct (truthy_string (mcp_session_id req) && _); simpl.
    + destruct (instanceof _ _) eqn:Hi; simpl.
      * apply instanceof_Instance in Hi as (t' & -> & Hcls).
        pose proof (handle_handoffs t' (handleRequest lib) st) as Hh.
        destruct (handle _ _ _) as [st1 es]. simpl in *. rewrite Hh.
        by intros ->%list_elem_of_singleton.
      * intros H. by apply elem_of_nil in H.
    + destruct (_ && isInitializeRequest req); simpl;
        [|intros H; by apply elem_of_nil in H].
      destruct (truthy_query _); simpl; [|intros H; by apply elem_of_nil in H].
      destruct (connect_throws lib); simpl; [intros H; by apply elem_of_nil in H|].
      match goal with
      | |- context [handle (Instance ?tr) ?o ?s] =>
          pose proof (handle_handoffs tr o s) as Hh;
          destruct (handle (Instance tr) o s) as [st1 es]
      end.
      simpl in *. rewrite Hh. by intros ->%list_elem_of_singleton.
  - intros req throws t. unfold app_post_messages.
    destruct (instanceof _ _) eqn:Hi; simpl;
      [|intros H; by apply elem_of_nil in H].
    apply instanceof_Instance in Hi as (t' & -> & Hcls). simpl.
    destruct throws; simpl; by intros ->%list_elem_of_singleton.
Qed.

Lemma cross_family_request_rejected_witness :
  reachable Sample.tools Sample.two_sessions ∧
  app_all_mcp Sample.tools (Sample.post_to Sample.id2) Sample.answers Sample.two_sessions =
    (Sample.two_sessions,
     [ConsoleLog "Received POST request to /mcp"; Respond 400 WrongTransportForSession]) ∧
  app_post_messages (Sample.message_to Sample.id1) false Sample.two_sessions =
    (Sample.two_sessions, [Respond 400 WrongTransportForSession]) ∧
  app_post_messages (Sample.message_to Sample.id3) false Sample.two_sessions =
    (Sample.two_sessions, [Respond 400 WrongTransportForSession]).
Proof.
  pose proof (cross_family_request_rejected Sample.tools Sample.two_sessions
                sample_two_sessions_reachable) as (Hmcp & Hmsg & _).
  split; [exact sample_two_sessions_reachable|].
  split; [|split].
  - apply (Hmcp (Sample.post_to Sample.id2) Sample.answers Sample.id2 Sample.sse3);
      reflexivity.
  - apply Hmsg. right. exists Sample.streamable1. split; reflexivity.
  - apply Hmsg. left. reflexivity.
Defined.

(** C4. An initialization [POST] to [/mcp] without a session id and without
    a token (absent, or the empty string) is answered with status 400 and
    the [MissingToken] envelope; the state, and so the registry, stays as it
    was, and nothing else happens. *)
Theorem initialization_without_token_rejected
    (tools : list Tools.CallTool) (req : McpRequest) (lib : McpLibrary) (st : State) :
  truthy_string (mcp_session_id req) = false →
  method req = "POST" →
  isInitializeRequest req = true →
  truthy_query (token req) = false →
  app_all_mcp tools req lib st =
    (st, [ConsoleLog "Received POST request to /mcp"; Respond 400 MissingToken]).
Proof.
  intros Hsid Hm Hinit Htok. unfold app_all_mcp.
  rewrite Hsid, Hm, Hinit, Htok. reflexivity.
Qed.

Lemma initialization_without_token_rejected_witness :
  token Sample.initialize_without_token = None ∧
  app_all_mcp Sample.tools Sample.initialize_without_token
    (Sample.accepts Sample.id3) Sample.two_sessions =
    (Sample.two_sessions,
     [ConsoleLog "Received POST request to /mcp"; Respond 400 MissingToken]).
Proof.
  split; [reflexivity|].
  apply (initialization_without_token_rejected Sample.tools
           Sample.initialize_without_token (Sample.accepts Sample.id3)
           Sample.two_sessions); reflexivity.
Defined.

Lemma catch_block_responses b :
  responses (catch_block b) = if b then [] else [(500%Z, InternalError)].
Proof. by destruct b. Qed.

Lemma handle_trace t o st :
  ∃ logs,
    (∀ e, e ∈ logs → ∃ msg, e = ConsoleLog msg) ∧
    (handle (Instance t) o st).2 =
      HandleRequest t :: logs
      ++ (if ho_throws o then catch_block (ho_headersSent o) else []).
Proof.
  unfold handle, method_call.
  pose proof (run_handleRequest_effects t o st) as Hes.
  destruct (run_handleRequest t o st) as [st1 es]. simpl in *. eauto.
Qed.

(** What the router does once a transport has been resolved: the effects up
    to the hand-off contain no response and no error, and what follows the
    hand-off is what [handle] does. *)
Lemma app_all_mcp_resolved tools req lib st t :
  t ∈ handoffs (app_all_mcp tools req lib st).2 →
  ∃ setup,
    responses setup = [] ∧ errors setup = [] ∧
    (app_all_mcp tools req lib st).2 =
      setup ++ (handle (Instance t) (handleRequest lib)
                  (if truthy_string (mcp_session_id req)
                   then st
                   else with_connection (getServer tools (next_ref st + 2)) t
                          (alloc 3 st))).2.
Proof.
  unfold app_all_mcp.
  destruct (truthy_string (mcp_session_id req)) eqn:Hsid; simpl.
  - destruct (truthy_slot _); simpl; [|intros H; by apply elem_of_nil in H].
    destruct (instanceof _ _) eqn:Hi; simpl; [|intros H; by apply elem_of_nil in H].
    apply instanceof_Instance in Hi as (t' & -> & Hcls).
    pose proof (handle_handoffs t' (handleRequest lib) st) as Hh.
    destruct (handle _ _ _) as [st1 es] eqn:Hhandle. simpl in *. rewrite Hh.
    intros ->%list_elem_of_singleton.
    rewrite Hhandle. simpl.
    match goal with |- ∃ _, _ ∧ _ ∧ ?a :: _ = _ => by exists [a] end.
  - destruct (_ && isInitializeRequest req); simpl;
      [|intros H; by apply elem_of_nil in H].
    destruct (truthy_query _); simpl; [|intros H; by apply elem_of_nil in H].
    destruct (connect_throws lib); simpl; [intros H; by apply elem_of_nil in H|].
    match goal with
    | |- context [handle (Instance ?tr) ?o ?s] =>
        pose proof (handle_handoffs tr o s) as Hh;
        destruct (handle (Instance tr) o s) as [st1 es] eqn:Hhandle
    end.
    simpl in *. rewrite Hh. intros ->%list_elem_of_singleton.
    rewrite Hhandle. simpl.
    match goal with
    | |- ∃ _, _ ∧ _ ∧ ?a :: ?b :: ?c :: ?d :: ?e :: _ = _ => by exists [a; b; c; d; e]
    end.
Qed.

(** C7. When [handleRequest] of the resolved transport fails, the router
    logs the error; it answers with status 500 and the [InternalError]
    envelope exactly when no part of the response has been sent, and writes
    nothing to the response otherwise. *)
Theorem handler_failure_reported_unless_headers_sent
    (tools : list Tools.CallTool) (req : McpRequest) (lib : McpLibrary)
    (st : State) (t : Transport) :
  t ∈ handoffs (app_all_mcp tools req lib st).2 →
  ho_throws (handleRequest lib) = true →
  let es := (app_all_mcp tools req lib st).2 in
  errors es = ["Error handling MCP request:"] ∧
  responses es =
    (if ho_headersSent (handleRequest lib) then [] else [(500%Z, InternalError)]) ∧
  ((500%Z, InternalError) ∈ responses es ↔ ho_headersSent (handleRequest lib) = false).
Proof.
  intros Ht Hthrows es.
  assert (errors es = ["Error handling MCP request:"] ∧
          responses es =
            (if ho_headersSent (handleRequest lib) then [] else [(500%Z, InternalError)]))
    as [Herr Hresp].
  { subst es.
    destruct (app_all_mcp_resolved _ _ _ _ _ Ht) as (setup & Hr & He & ->).
    destruct (handle_trace t (handleRequest lib)
                (if truthy_string (mcp_session_id req) then st
                 else with_connection (getServer tools (next_ref st + 2)) t (alloc 3 st)))
      as (logs & Hlogs & ->).
    rewrite Hthrows.
    unfold errors, responses in *.
    rewrite !omap_app, Hr, He. simpl. rewrite !omap_app.
    rewrite !(omap_ConsoleLog _ logs); [|done..].
    split; [by destruct (ho_headersSent _)|].
    by destruct (ho_headersSent _). }
  split_and!; [done.. |].
  rewrite Hresp. destruct (ho_headersSent _).
  - split; [intros H; by apply elem_of_nil in H | done].
  - split; [done | intros _; by apply list_elem_of_singleton].
Qed.

Lemma handler_failure_reported_unless_headers_sent_witness :
  (let es := (app_all_mcp Sample.tools (Sample.post_to Sample.id1) (Sample.fails false)
                Sample.two_sessions).2 in
   errors es = ["Error handling MCP request:"] ∧
   responses es = [(500%Z, InternalError)] ∧
   ((500%Z, InternalError) ∈ responses es ↔ false = false)) ∧
  (let es := (app_all_mcp Sample.tools (Sample.post_to Sample.id1) (Sample.fails true)
                Sample.two_sessions).2 in
   errors es = ["Error handling MCP request:"] ∧
   responses es = [] ∧
   ((500%Z, InternalError) ∈ responses es ↔ true = false)).
Proof.
  split.
  - apply (handler_failure_reported_unless_headers_sent Sample.tools
             (Sample.post_to Sample.id1) (Sample.fails false) Sample.two_sessions
             Sample.streamable1); [|reflexivity].
    vm_compute. by apply list_elem_of_singleton.
  - apply (handler_failure_reported_unless_headers_sent Sample.tools
             (Sample.post_to Sample.id1) (Sample.fails true) Sample.two_sessions
             Sample.streamable1); [|reflexivity].
    vm_compute. by apply list_elem_of_singleton.
Defined.

(** C8, as stated, fails.  With the empty string as its value the header
    counts as absent, since the handler tests it for truthiness: an
    initialization [POST] with a token creates a session.  (The second part
    shows what the amended statement leaves aside: a name that the registry
    object inherits from its prototype is read as an existing session, and
    the request is rejected with the envelope of the other branch.) *)
Lemma unknown_session_id_counterexample :
  (mcp_session_id (Sample.initialize_with_header "") = Some "" ∧
   Registry.own (transports Sample.two_sessions) "" = None ∧
   transports (app_all_mcp Sample.tools (Sample.initialize_with_header "")
                 (Sample.accepts Sample.id3) Sample.two_sessions).1 =
     transports Sample.two_sessions
     ++ [(Sample.id3, {| t_ref := 6; t_class := StreamableHTTPServerTransport;
                         t_eventStore := Some 5 |})] ∧
   responses (app_all_mcp Sample.tools (Sample.initialize_with_header "")
                (Sample.accepts Sample.id3) Sample.two_sessions).2 = []) ∧
  (mcp_session_id (Sample.initialize_with_header "constructor") = Some "constructor" ∧
   Registry.own (transports Sample.two_sessions) "constructor" = None ∧
   responses (app_all_mcp Sample.tools (Sample.initialize_with_header "constructor")
                (Sample.accepts Sample.id3) Sample.two_sessions).2 =
     [(400%Z, WrongTransportForSession)] ∧
   WrongTransportForSession ≠ InvalidSession).
Proof. split_and!; try reflexivity. discriminate. Qed.

(** C8, amended.  A request to [/mcp] whose session-id header is a
    non-empty string that is not a key of the registry (and not one of the
    names that the registry object inherits from its prototype, about which
    nothing is said here) is answered with status 400 and the
    [InvalidSession] envelope and changes nothing, whatever its method, body
    and token: no transport, no server and no registry entry is created,
    because a session is created only when the header is absent or
    empty. *)
Theorem unknown_session_id_rejected
    (tools : list Tools.CallTool) (req : McpRequest) (lib : McpLibrary)
    (st : State) (sid : string) :
  mcp_session_id req = Some sid →
  sid ≠ "" →
  Registry.own (transports st) sid = None →
  sid ∉ Object_prototype →
  app_all_mcp tools req lib st =
    (st, [ConsoleLog ("Received " +:+ method req +:+ " request to /mcp");
          Respond 400 InvalidSession]).
Proof.
  intros Hhdr Hne Hown Hproto. unfold app_all_mcp, Registry.get.
  rewrite Hhdr. cbn [key_of truthy_string]. rewrite Hown.
  apply String.eqb_neq in Hne as ->. simpl.
  by rewrite bool_decide_eq_false_2.
Qed.

Lemma unknown_session_id_rejected_witness :
  (Sample.id3 ∉ Object_prototype) ∧
  app_all_mcp Sample.tools (Sample.initialize_with_header Sample.id3)
    (Sample.accepts Sample.id3) Sample.two_sessions =
    (Sample.two_sessions,
     [ConsoleLog "Received POST request to /mcp"; Respond 400 InvalidSession]).
Proof.
  assert (Sample.id3 ∉ Object_prototype) as Hproto
    by (apply is_uuid_not_inherited; reflexivity).
  split; [exact Hproto|].
  apply (unknown_session_id_rejected Sample.tools
           (Sample.initialize_with_header Sample.id3) (Sample.accepts Sample.id3)
           Sample.two_sessions Sample.id3);
    [reflexivity | discriminate | reflexivity | exact Hproto].
Defined.

(** C10. In the [/messages] handler the branch that answers with the text
    ["No transport found for sessionId"] is never taken: past the
    [instanceof] test the variable holds an SSE transport, which is truthy,
    and the request is handed to it.  Every response of the handler itself
    is therefore the 400 JSON-RPC envelope. *)
Theorem messages_fallback_unreachable
    (req : MessagesRequest) (throws : bool) (st : State) :
  let existingTransport :=
    Registry.get (transports st) (to_property_key (query_sessionId req)) in
  let es := (app_post_messages req throws st).2 in
  (Respond 400 (TextBody "No transport found for sessionId") ∉ es) ∧
  (∀ status body, Respond status body ∈ es →
     status = 400%Z ∧ body = WrongTransportForSession) ∧
  (if instanceof existingTransport SSEServerTransport
   then ∃ t, existingTransport = Instance t ∧ t_class t = SSEServerTransport ∧
             truthy_slot existingTransport = true ∧
             es = HandlePostMessage t :: (if throws then [Rejected] else [])
   else es = [Respond 400 WrongTransportForSession]).
Proof.
  intros existingTransport es. subst es. unfold app_post_messages.
  fold existingTransport.
  destruct (instanceof existingTransport SSEServerTransport) eqn:Hi.
  - apply instanceof_Instance in Hi as (t & Hget & Hcls).
    rewrite Hget. simpl. split_and!.
    + intros H. destruct throws;
        not_in_trace H.
    + intros status body H. destruct throws;
        not_in_trace H.
    + by exists t.
  - simpl. split_and!.
    + intros H%list_elem_of_singleton. discriminate H.
    + by intros status body [= -> ->]%list_elem_of_singleton.
    + done.
Qed.

(** ** Inserting and removing sessions *)

Lemma keys_set_present r k t :
  is_Some (Registry.own r k) → Registry.keys (Registry.set r k t) = Registry.keys r.
Proof.
  unfold Registry.keys.
  induction r as [|[k0 t0] r IH]; simpl; [by intros [? ?]|].
  destruct (String.eqb_spec k0 k) as [->|Hne]; simpl; [done|].
  intros H. f_equal. by apply IH.
Qed.

(** C3, as stated, fails: the session id that the SSE transport of a new
    [/sse] request draws is already a key of the registry, and the entry of
    the Streamable session stored under it is replaced by the new SSE
    transport; the same happens in [onsessioninitialized]. *)
Lemma insert_under_existing_id_counterexample :
  Registry.own (transports Sample.one_session) Sample.id1 = Some Sample.streamable1 ∧
  Registry.own
    (transports (app_get_sse Sample.tools
                   {| randomUUID := Sample.id1; sse_connect_throws := false |}
                   Sample.one_session).1) Sample.id1 = Some Sample.sse3 ∧
  Registry.own
    (transports (onsessioninitialized Sample.sse3 Sample.id1 Sample.one_session).1)
    Sample.id1 = Some Sample.sse3 ∧
  Sample.sse3 ≠ Sample.streamable1.
Proof. split_and!; try reflexivity. discriminate. Qed.

(** C3, amended.  An insert under a session id always succeeds and makes
    the inserted transport the entry of that id, at both places that
    insert: an entry already stored under the id is replaced in place (the
    last writer wins), and the entries of all other ids stay as they
    were. *)
Theorem insert_replaces_existing_entry
    (tools : list Tools.CallTool) (st : State) (transport : Transport)
    (sessionId : string) (lib : SseLibrary) :
  is_uuid sessionId = true →
  is_uuid (randomUUID lib) = true →
  let st1 := (onsessioninitialized transport sessionId st).1 in
  let st2 := (app_get_sse tools lib st).1 in
  Registry.own (transports st1) sessionId = Some transport ∧
  (∀ k, k ≠ sessionId → Registry.own (transports st1) k = Registry.own (transports st) k) ∧
  (is_Some (Registry.own (transports st) sessionId) →
     Registry.keys (transports st1) = Registry.keys (transports st)) ∧
  Registry.own (transports st2) (randomUUID lib) =
    Some {| t_ref := next_ref st; t_class := SSEServerTransport; t_eventStore := None |} ∧
  (∀ k, k ≠ randomUUID lib →
     Registry.own (transports st2) k = Registry.own (transports st) k) ∧
  (is_Some (Registry.own (transports st) (randomUUID lib)) →
     Registry.keys (transports st2) = Registry.keys (transports st)).
Proof.
  intros _ _. simpl. unfold sessionId_of. simpl. rewrite lookup_insert_eq. simpl.
  split_and!.
  - apply own_set_eq.
  - intros k Hne. by apply own_set_ne.
  - apply keys_set_present.
  - apply own_set_eq.
  - intros k Hne. by apply own_set_ne.
  - apply keys_set_present.
Qed.

Lemma insert_replaces_existing_entry_witness :
  let st1 := (onsessioninitialized Sample.sse3 Sample.id1 Sample.one_session).1 in
  let st2 := (app_get_sse Sample.tools
                {| randomUUID := Sample.id1; sse_connect_throws := false |}
                Sample.one_session).1 in
  Registry.own (transports Sample.one_session) Sample.id1 = Some Sample.streamable1 ∧
  Registry.own (transports st1) Sample.id1 = Some Sample.sse3 ∧
  Registry.own (transports st2) Sample.id1 = Some Sample.sse3 ∧
  Registry.keys (transports st2) = Registry.keys (transports Sample.one_session).
Proof.
  pose proof (insert_replaces_existing_entry Sample.tools Sample.one_session
                Sample.sse3 Sample.id1
                {| randomUUID := Sample.id1; sse_connect_throws := false |}
                eq_refl eq_refl) as (H1 & _ & _ & H2 & _ & H3).
  split; [reflexivity|]. split; [exact H1|]. split; [exact H2|].
  apply H3. by exists Sample.streamable1.
Defined.

(** C6. Removing a session id a second time changes nothing and cannot
    fail, and the id is not a key afterwards: for [delete] itself, for the
    listener of the SSE response, for [onclose], and for the [delete] of the
    shutdown loop that follows the [onclose] of the transport it closes. *)
Theorem double_removal_is_noop (st : State) (k : string) (t : Transport) :
  Registry.delete (Registry.delete (transports st) k) k
    = Registry.delete (transports st) k ∧
  Registry.own (Registry.delete (Registry.delete (transports st) k) k) k = None ∧
  res_on_close t (res_on_close t st) = res_on_close t st ∧
  (onclose t (onclose t st).1).1 = (onclose t st).1 ∧
  (sessionId_of st t = Some k → k ≠ "" →
     Registry.delete (transports (onclose t st).1) k = transports (onclose t st).1 ∧
     Registry.own (transports (onclose t st).1) k = None).
Proof.
  split_and!.
  - apply delete_idemp.
  - rewrite delete_idemp. apply own_delete_eq.
  - unfold res_on_close, with_transports, sessionId_of. simpl.
    by rewrite delete_idemp.
  - unfold onclose, sessionId_of. simpl.
    destruct (truthy_string _ && truthy_slot (Registry.get (transports st) _)) eqn:Hc;
      simpl; [|by rewrite Hc].
    match goal with |- (if ?c then _ else _).1 = _ => destruct c end; simpl; [|done].
    unfold with_transports. simpl. by rewrite delete_idemp.
  - intros Hsid Hne. unfold onclose. rewrite Hsid. simpl.
    apply String.eqb_neq in Hne as ->. simpl.
    unfold Registry.get.
    destruct (Registry.own (transports st) k) as [t'|] eqn:Hown; simpl.
    + split; [apply delete_idemp | apply own_delete_eq].
    + case_bool_decide; simpl.
      * split; [apply delete_idemp | apply own_delete_eq].
      * by rewrite delete_absent.
Qed.

(** ** Creating a session *)

Lemma onclose_entries t st k t' :
  (k, t') ∈ transports (onclose t st).1 → (k, t') ∈ transports st.
Proof.
  unfold onclose.
  match goal with |- context [if ?c then _ else _] => destruct c end; simpl; [|done].
  by intros [_ H]%elem_of_delete.
Qed.

Lemma run_handleRequest_entries t o st k t' :
  (k, t') ∈ transports (run_handleRequest t o st).1 →
  (k, t') ∈ transports st ∨ (t' = t ∧ ho_initialized o = Some k).
Proof.
  unfold run_handleRequest.
  destruct (ho_initialized o) as [sid|]; simpl.
  - destruct (ho_closed o); simpl.
    + match goal with
      | |- context [onclose t ?s] =>
          pose proof (onclose_entries t s k t') as Hsub; destruct (onclose t s)
      end.
      simpl in *. intros [[= -> ->]|H]%Hsub%elem_of_set; [by right | by left].
    + intros [[= -> ->]|H]%elem_of_set; [by right | by left].
  - destruct (ho_closed o); simpl; [|by left].
    pose proof (onclose_entries t st k t') as Hsub. destruct (onclose t st).
    simpl in *. intros H%Hsub. by left.
Qed.

(** C2, as stated, fails: the entry of a new session is written by the
    callback that the transport of the library calls once it has accepted
    the initialization.  An initialization [POST] without session id and
    with a token leaves the registry as it was when the library answers
    without initializing a session, or when [server.connect] rejects; and
    when the id the library draws is already a key, the entry of that key
    is replaced and no entry is added. *)
Lemma initialization_declined_counterexample :
  reachable Sample.tools Sample.two_sessions ∧
  sdk_contract Sample.two_sessions (McpIn Sample.initialize Scenario.declines) ∧
  (mcp_session_id Sample.initialize = None ∧
   method Sample.initialize = "POST" ∧
   isInitializeRequest Sample.initialize = true ∧
   token Sample.initialize = Some (QString "abc")) ∧
  transports (app_all_mcp Sample.tools Sample.initialize Scenario.declines
                Sample.two_sessions).1 = transports Sample.two_sessions ∧
  transports (app_all_mcp Sample.tools Sample.initialize Scenario.connect_fails
                Sample.two_sessions).1 = transports Sample.two_sessions ∧
  Registry.keys
    (transports (app_all_mcp Sample.tools Sample.initialize (Sample.accepts Sample.id2)
                   Sample.two_sessions).1) =
    Registry.keys (transports Sample.two_sessions).
Proof.
  split; [exact sample_two_sessions_reachable|].
  split_and!; reflexivity || exact I.
Qed.

(** C2, amended.  An initialization [POST] to [/mcp] without a session id
    and with a token always constructs a new event store and then a new
    Streamable transport with that store, which belongs to no other
    transport; whatever the library does, every entry the registry has
    afterwards is one it had before or the entry of the new transport under
    the session id the library gave it, so at most one entry is new.  When
    the library accepts the initialization ([server.connect] resolves, the
    transport is given a session id drawn by [randomUUID()] that is not yet a
    key, and it does not close itself in the same call), exactly one entry
    is added, under that id, and the request is handed to the new transport
    and to no other. *)
Theorem initialization_creates_streamable_session
    (tools : list Tools.CallTool) (st : State) (req : McpRequest)
    (lib : McpLibrary) :
  reachable tools st →
  truthy_string (mcp_session_id req) = false →
  method req = "POST" →
  isInitializeRequest req = true →
  truthy_query (token req) = true →
  let eventStore := next_ref st in
  let transport :=
    {| t_ref := next_ref st + 1; t_class := StreamableHTTPServerTransport;
       t_eventStore := Some eventStore |} in
  let st' := (app_all_mcp tools req lib st).1 in
  let es := (app_all_mcp tools req lib st).2 in
  (∃ es1 es2, es = es1 ++ NewEventStore eventStore :: NewTransport transport :: es2 ∧
              (NewEventStore eventStore ∉ es1) ∧ (NewEventStore eventStore ∉ es2)) ∧
  (∀ server t, (server, t) ∈ connections st →
     t_eventStore t ≠ Some eventStore ∧ t_ref t ≠ t_ref transport) ∧
  (∀ k t, (k, t) ∈ transports st' →
     (k, t) ∈ transports st ∨
     (t = transport ∧ connect_throws lib = false ∧
      ho_initialized (handleRequest lib) = Some k)) ∧
  (∀ sid,
     connect_throws lib = false →
     ho_initialized (handleRequest lib) = Some sid →
     is_uuid sid = true →
     ho_closed (handleRequest lib) = false →
     Registry.own (transports st) sid = None →
     transports st' = transports st ++ [(sid, transport)] ∧
     sessionId_of st' transport = Some sid ∧
     handoffs es = [transport]).
Proof.
  intros Hreach Hsid Hm Hinit Htok eventStore transport st' es.
  subst st' es eventStore. unfold app_all_mcp. rewrite Hsid, Hm, Hinit, Htok.
  cbn [andb negb String.eqb Ascii.eqb Bool.eqb].
  fold transport.
  set (server := getServer tools (next_ref st + 2)).
  set (st1 := with_connection server transport (alloc 3 st)).
  set (received := ConsoleLog ("Received " +:+ "POST" +:+ " request to /mcp")).
  split_and!.
  - destruct (connect_throws lib).
    + exists [received; ConsoleLogValue "Initializing new session with token:" (token req)],
        (Connect server transport :: catch_block false).
      split; [reflexivity|]. split; intros H; simpl in H; not_in_trace H.
    + destruct (handle_trace transport (handleRequest lib) st1) as (logs & Hlogs & Heq).
      destruct (handle (Instance transport) (handleRequest lib) st1) as [st2 es].
      cbn [fst snd] in *. subst es.
      exists [received; ConsoleLogValue "Initializing new session with token:" (token req)],
        (Connect server transport :: HandleRequest transport :: logs
         ++ (if ho_throws (handleRequest lib)
             then catch_block (ho_headersSent (handleRequest lib)) else [])).
      split; [reflexivity|]. split; [intros H; simpl in H; not_in_trace H|].
      intros H. do 2 (apply elem_of_cons in H as [H|H]; [discriminate H|]).
      apply elem_of_app in H as [H|H].
      * by destruct (Hlogs _ H).
      * destruct (ho_throws _); [destruct (ho_headersSent _)|]; simpl in H;
          not_in_trace H.
  - intros server' t Hin.
    apply (wf_refs _ _ (reachable_wf _ _ Hreach)) in Hin as (_ & Ht & He).
    split; [|simpl; lia].
    intros Heq. apply He in Heq. lia.
  - intros k t. destruct (connect_throws lib); [by left|].
    pose proof (handle_state st1 transport (handleRequest lib)) as Hst.
    destruct (handle (Instance transport) (handleRequest lib) st1) as [st2 es].
    cbn [fst] in *. subst st2.
    intros [H|[-> H]]%run_handleRequest_entries; [by left | by right].
  - intros sid Hconn Hsome Hu Hclosed Hown. rewrite Hconn.
    unfold handle, method_call, run_handleRequest.
    rewrite Hsome, Hclosed. simpl. split_and!.
    + by apply set_absent.
    + unfold sessionId_of. simpl. apply lookup_insert_eq.
    + by destruct (ho_throws _); [destruct (ho_headersSent _)|].
Qed.

Lemma initialization_creates_streamable_session_witness :
  reachable Sample.tools Sample.two_sessions ∧
  let st' := (app_all_mcp Sample.tools Sample.initialize (Sample.accepts Sample.id3)
                Sample.two_sessions).1 in
  transports st' =
    [(Sample.id1, Sample.streamable1); (Sample.id2, Sample.sse3);
     (Sample.id3, {| t_ref := 6; t_class := StreamableHTTPServerTransport;
                     t_eventStore := Some 5 |})].
Proof.
  split; [exact sample_two_sessions_reachable|].
  pose proof (initialization_creates_streamable_session Sample.tools
                Sample.two_sessions Sample.initialize (Sample.accepts Sample.id3)
                sample_two_sessions_reachable eq_refl eq_refl eq_refl eq_refl)
    as (_ & _ & _ & Haccepted).
  by destruct (Haccepted Sample.id3 eq_refl eq_refl eq_refl eq_refl eq_refl) as [H _].
Defined.

(** ** Shutdown *)

Lemma own_middle (r1 r2 : Registry) k t :
  k ∉ Registry.keys r1 → Registry.own (r1 ++ (k, t) :: r2) k = Some t.
Proof.
  intros H%own_None. rewrite own_app, H. simpl. by rewrite String.eqb_refl.
Qed.

Lemma delete_middle (r1 r2 : Registry) k t :
  k ∉ Registry.keys r1 → k ∉ Registry.keys r2 →
  Registry.delete (r1 ++ (k, t) :: r2) k = r1 ++ r2.
Proof.
  intros H1%own_None H2%own_None. rewrite delete_app. simpl.
  rewrite String.eqb_refl. by rewrite !delete_absent.
Qed.

Lemma NoDup_keys_middle (r1 r2 : Registry) k t :
  NoDup (Registry.keys (r1 ++ (k, t) :: r2)) →
  (k ∉ Registry.keys r1) ∧ (k ∉ Registry.keys r2) ∧
  NoDup (Registry.keys (r1 ++ r2)) ∧
  NoDup (Registry.keys ((r1 ++ [(k, t)]) ++ r2)).
Proof.
  unfold Registry.keys. rewrite <-app_assoc. simpl.
  rewrite !fmap_app. simpl. intros Hnd. split_and!; [| | |done].
  - apply NoDup_app in Hnd as (_ & Hnd & _).
    intros Hk. apply (Hnd _ Hk). left.
  - apply NoDup_app in Hnd as (_ & _ & Hnd). by apply NoDup_cons in Hnd as [? _].
  - apply NoDup_app in Hnd as (H1 & H2 & H3). apply NoDup_app. split_and!; [done| |].
    + intros x Hx Hx'. apply (H2 _ Hx). by right.
    + by apply NoDup_cons in H3 as [_ ?].
Qed.

Section Shutdown.

Variable close_of : Transport → CloseOutcome.

Lemma run_close_effects t o st :
  ∀ e, e ∈ (run_close t o st).2 → ∃ msg, e = ConsoleLog msg.
Proof.
  unfold run_close, onclose.
  destruct (co_onclose o), (t_class t); simpl;
    try match goal with |- context [if ?c then _ else _] => destruct c end; simpl;
    intros e He;
    repeat (apply elem_of_cons in He as [->|He]; [by eexists|]);
    by apply elem_of_nil in He.
Qed.

Lemma run_close_state (r1 r2 : Registry) k t o st :
  transports st = r1 ++ (k, t) :: r2 →
  NoDup (Registry.keys (r1 ++ (k, t) :: r2)) →
  sessionId_of st t = Some k → k ≠ "" →
  (run_close t o st).1 =
    if co_onclose o && bool_decide (t_class t = StreamableHTTPServerTransport)
    then with_transports (r1 ++ r2) st else st.
Proof.
  intros Htr (Hk1 & Hk2 & _)%NoDup_keys_middle Hsid Hne.
  unfold run_close. destruct (co_onclose o); simpl; [|done].
  destruct (t_class t); simpl; [|done].
  unfold onclose. rewrite Hsid. simpl.
  apply String.eqb_neq in Hne as ->. simpl.
  rewrite Htr, (get_own _ _ t) by by apply own_middle. simpl.
  by rewrite delete_middle.
Qed.

Lemma for_in_cons k ks st t :
  Registry.own (transports st) k = Some t →
  for_in close_of (k :: ks) st =
    let o := close_of t in
    let r1 := run_close t o st in
    let st2 :=
      if co_throws o then r1.1
      else with_transports (Registry.delete (transports r1.1) k) r1.1 in
    let r3 := for_in close_of ks st2 in
    (r3.1,
     ConsoleLog ("Closing transport for session " +:+ k) :: Close t :: r1.2
     ++ (if co_throws o then [ConsoleError (close_error (k, t))] else []) ++ r3.2).
Proof.
  intros Hown. cbn [for_in]. rewrite Hown.
  destruct (run_close t (close_of t) st) as [st1 es1].
  destruct (co_throws (close_of t)); cbn [fst snd];
    by destruct (for_in close_of ks _).
Qed.

Lemma iteration_trace {A} (f : Effect → option A) msg t es1 es2 es3 :
  (∀ msg, f (ConsoleLog msg) = None) →
  (∀ e, e ∈ es1 → ∃ msg, e = ConsoleLog msg) →
  omap f (ConsoleLog msg :: Close t :: es1 ++ es2 ++ es3) =
  omap f [Close t] ++ omap f es2 ++ omap f es3.
Proof.
  intros Hf Hes.
  change (ConsoleLog msg :: Close t :: es1 ++ es2 ++ es3)
    with ([ConsoleLog msg] ++ [Close t] ++ es1 ++ es2 ++ es3).
  rewrite !omap_app, (omap_ConsoleLog f es1) by done.
  rewrite (omap_ConsoleLog f [ConsoleLog msg]); [done | done |].
  intros e ->%list_elem_of_singleton. by eexists.
Qed.

Lemma survives_entry k t :
  survives close_of (k, t) =
  co_throws (close_of t)
  && negb (co_onclose (close_of t)
           && bool_decide (t_class t = StreamableHTTPServerTransport)).
Proof. reflexivity. Qed.

Lemma filter_cons_bool {A} (f : A → bool) x l :
  List.filter f (x :: l) = if f x then x :: List.filter f l else List.filter f l.
Proof. reflexivity. Qed.

Lemma for_in_spec (todo : Registry) : ∀ (done : Registry) (st : State),
  transports st = done ++ todo →
  NoDup (Registry.keys (done ++ todo)) →
  (∀ k t, (k, t) ∈ todo → sessionId_of st t = Some k ∧ k ≠ "") →
  let r := for_in close_of (Registry.keys todo) st in
  transports r.1 = done ++ List.filter (survives close_of) todo ∧
  closes r.2 = todo.*2 ∧
  errors r.2 = close_error <$> List.filter (λ e, co_throws (close_of e.2)) todo ∧
  exits r.2 = [] ∧
  responses r.2 = [].
Proof.
  induction todo as [|[k t] todo IH]; intros done st Htr Hnd Hsid.
  - simpl. by rewrite app_nil_r in *.
  - destruct (Hsid k t) as [Hsidk Hne]; [left|].
    pose proof (NoDup_keys_middle _ _ _ _ Hnd) as (Hk1 & Hk2 & Hnd1 & Hnd2).
    pose proof (run_close_state done todo k t (close_of t) st Htr Hnd Hsidk Hne) as Hst1.
    pose proof (run_close_effects t (close_of t) st) as Hes1.
    change (Registry.keys ((k, t) :: todo)) with (k :: Registry.keys todo).
    rewrite (for_in_cons k _ st t) by (rewrite Htr; by apply own_middle).
    cbv zeta.
    destruct (run_close t (close_of t) st) as [st1 es1]. cbn [fst snd] in *.
    rewrite !filter_cons_bool, survives_entry. cbn [snd].
    unfold closes, errors, exits, responses.
    rewrite !iteration_trace by done.
    fold (closes (for_in close_of (Registry.keys todo)
            (if co_throws (close_of t) then st1
             else with_transports (Registry.delete (transports st1) k) st1)).2).
    fold (errors (for_in close_of (Registry.keys todo)
            (if co_throws (close_of t) then st1
             else with_transports (Registry.delete (transports st1) k) st1)).2).
    fold (exits (for_in close_of (Registry.keys todo)
            (if co_throws (close_of t) then st1
             else with_transports (Registry.delete (transports st1) k) st1)).2).
    fold (responses (for_in close_of (Registry.keys todo)
            (if co_throws (close_of t) then st1
             else with_transports (Registry.delete (transports st1) k) st1)).2).
    assert (∀ k' t', (k', t') ∈ todo → sessionId_of st t' = Some k' ∧ k' ≠ "") as Hsid'.
    { intros k' t' Hin. apply Hsid. by right. }
    destruct (co_throws (close_of t)) eqn:Hthrows;
      destruct (co_onclose (close_of t) && bool_decide (t_class t = _)) eqn:Hcb;
      cbn [andb negb]; subst st1.
    + (* the callback removed the entry, then [close] rejected *)
      destruct (IH done (with_transports (done ++ todo) st))
        as (IH1 & IH2 & IH3 & IH4 & IH5); [done.. |].
      by rewrite IH1, IH2, IH3, IH4, IH5.
    + (* [close] rejected and nothing removed the entry *)
      destruct (IH (done ++ [(k, t)]) st)
        as (IH1 & IH2 & IH3 & IH4 & IH5); [by rewrite <-app_assoc | done.. |].
      rewrite IH1, IH2, IH3, IH4, IH5. by rewrite <-app_assoc.
    + (* the callback removed the entry; the [delete] of the loop finds nothing *)
      destruct (IH done (with_transports
                           (Registry.delete (transports (with_transports (done ++ todo) st)) k)
                           (with_transports (done ++ todo) st)))
        as (IH1 & IH2 & IH3 & IH4 & IH5); [|done..|].
      { simpl. apply delete_absent, own_None.
        unfold Registry.keys in *. rewrite fmap_app, elem_of_app. tauto. }
      by rewrite IH1, IH2, IH3, IH4, IH5.
    + (* the [delete] of the loop removes the entry *)
      destruct (IH done (with_transports (Registry.delete (transports st) k) st))
        as (IH1 & IH2 & IH3 & IH4 & IH5); [|done..|].
      { simpl. rewrite Htr. by apply delete_middle. }
      by rewrite IH1, IH2, IH3, IH4, IH5.
Qed.

End Shutdown.

Lemma filter_none {A} (f : A → bool) (l : list A) :
  (∀ x, x ∈ l → f x = false) → List.filter f l = [].
Proof.
  induction l as [|x l IH]; intros H; simpl; [done|].
  rewrite (H x) by left. apply IH. intros y Hy. apply H. by right.
Qed.

(** C5, as stated, fails in its third part: with one Streamable and one
    legacy session open, both transports receive their [close] call and the
    process exits with status 0, but the legacy session, whose [close]
    rejects, is still in the registry after the loop. *)
Lemma shutdown_counterexample :
  transports Sample.two_sessions =
    [(Sample.id1, Sample.streamable1); (Sample.id2, Sample.sse3)] ∧
  closes (process_on_SIGINT Sample.close_sse_fails Sample.two_sessions).2 =
    [Sample.streamable1; Sample.sse3] ∧
  errors (process_on_SIGINT Sample.close_sse_fails Sample.two_sessions).2 =
    ["Error closing transport for session 9f1c2d3e-0a1b-4c2d-8e3f-5a6b7c8d9e0f:"] ∧
  exits (process_on_SIGINT Sample.close_sse_fails Sample.two_sessions).2 = [0%Z] ∧
  transports (process_on_SIGINT Sample.close_sse_fails Sample.two_sessions).1 =
    [(Sample.id2, Sample.sse3)].
Proof. split_and!; reflexivity. Qed.

(** C5, amended.  On [SIGINT] every transport of the registry receives one
    [close] call, in registry order; each rejected call is logged and the
    loop goes on; afterwards the registry holds exactly the sessions whose
    [close] rejected without their entry having been removed by [onclose],
    so it is empty when no [close] rejects; the process then exits with
    status 0, whatever the calls did, and no response is written. *)
Theorem shutdown_closes_every_transport
    (tools : list Tools.CallTool) (st : State)
    (close_of : Transport → CloseOutcome) :
  reachable tools st →
  let r := process_on_SIGINT close_of st in
  closes r.2 = (transports st).*2 ∧
  errors r.2 =
    close_error <$> List.filter (λ e, co_throws (close_of e.2)) (transports st) ∧
  transports r.1 = List.filter (survives close_of) (transports st) ∧
  ((∀ k t, (k, t) ∈ transports st → co_throws (close_of t) = false) →
     transports r.1 = []) ∧
  exits r.2 = [0%Z] ∧
  last r.2 = Some (ProcessExit 0) ∧
  responses r.2 = [].
Proof.
  intros Hwf%reachable_wf r.
  destruct (for_in_spec close_of (transports st) [] st) as (H1 & H2 & H3 & H4 & H5).
  { done. }
  { apply (wf_keys_nodup _ _ Hwf). }
  { intros k t Hin. split; [by apply (wf_sessionId _ _ Hwf)|].
    eapply is_uuid_nonempty, wf_keys_uuid; eauto. }
  subst r. unfold process_on_SIGINT.
  destruct (for_in close_of (Registry.keys (transports st)) st) as [st1 es].
  cbn [fst snd] in *.
  assert (transports st1 = List.filter (survives close_of) (transports st)) as Htr by done.
  split_and!.
  - unfold closes in *. cbn [omap]. simpl. rewrite omap_app, H2. simpl. by rewrite app_nil_r.
  - unfold errors in *. simpl. rewrite omap_app, H3. simpl. by rewrite app_nil_r.
  - done.
  - intros Hok. rewrite Htr. apply filter_none. intros [k t] Hin.
    unfold survives. simpl. by rewrite (Hok k t Hin).
  - unfold exits in *. simpl. rewrite omap_app, H4. done.
  - simpl. rewrite last_cons, last_app. simpl. done.
  - unfold responses in *. simpl. rewrite omap_app, H5. done.
Qed.

Lemma shutdown_closes_every_transport_witness :
  reachable Sample.tools Sample.two_sessions ∧
  let r := process_on_SIGINT Sample.close_ok Sample.two_sessions in
  closes r.2 = [Sample.streamable1; Sample.sse3] ∧
  transports r.1 = [] ∧
  exits r.2 = [0%Z].
Proof.
  split; [exact sample_two_sessions_reachable|].
  pose proof (shutdown_closes_every_transport Sample.tools Sample.two_sessions
                Sample.close_ok sample_two_sessions_reachable)
    as (Hcloses & _ & _ & Hempty & Hexit & _).
  split; [exact Hcloses|]. split; [|exact Hexit].
  apply Hempty. reflexivity.
Defined.

(** ** One protocol server per session *)

Lemma NoDup_fmap_eq {A B} (f : A → B) (l : list A) x y :
  NoDup (f <$> l) → x ∈ l → y ∈ l → f x = f y → x = y.
Proof.
  induction l as [|a l IH]; simpl; intros Hnd Hx Hy Heq.
  - by apply elem_of_nil in Hx.
  - apply NoDup_cons in Hnd as [Ha Hnd].
    apply elem_of_cons in Hx as [->|Hx]; apply elem_of_cons in Hy as [->|Hy].
    + done.
    + exfalso. apply Ha. rewrite Heq. by apply list_elem_of_fmap_2.
    + exfalso. apply Ha. rewrite <-Heq. by apply list_elem_of_fmap_2.
    + by apply IH.
Qed.

Lemma step_connects tools i st server t :
  Connect server t ∈ (step tools i st).2 →
  ∃ ref : nat, (next_ref st ≤ ref)%nat ∧ server = getServer tools ref ∧
         (next_ref st ≤ t_ref t)%nat ∧ NewTransport t ∈ (step tools i st).2.
Proof.
  destruct i as [req lib|lib|t'|req throws]; simpl.
  - unfold app_all_mcp.
    destruct (truthy_string (mcp_session_id req) && _); simpl.
    + destruct (instanceof _ _) eqn:Hi; simpl.
      * apply instanceof_Instance in Hi as (t0 & -> & _).
        destruct (handle_trace t0 (handleRequest lib) st) as (logs & Hlogs & Heq).
        destruct (handle _ _ _) as [st1 es]. simpl in *. subst es.
        intros [?|H]%elem_of_cons; [done|].
        apply elem_of_cons in H as [?|H]; [done|].
        apply elem_of_app in H as [H|H].
        -- by destruct (Hlogs _ H).
        -- destruct (ho_throws _); [destruct (ho_headersSent _)|]; simpl in H;
             not_in_trace H.
      * intros H. not_in_trace H.
    + destruct (_ && isInitializeRequest req); simpl.
      2:{ intros H. not_in_trace H. }
      destruct (truthy_query _); simpl.
      2:{ intros H. not_in_trace H. }
      destruct (connect_throws lib); simpl.
      * intros H. do 4 (apply elem_of_cons in H as [?|H]; [done|]).
        apply elem_of_cons in H as [[= -> ->]|H].
        -- exists (next_ref st + 2). split_and!; [lia | done | simpl; lia |].
           do 3 right. left.
        -- not_in_trace H.
      * match goal with
        | |- context [handle (Instance ?tr) ?o ?s] =>
            destruct (handle_trace tr o s) as (logs & Hlogs & Heq);
            destruct (handle (Instance tr) o s) as [st1 es]
        end.
        simpl in *. subst es.
        intros H. do 4 (apply elem_of_cons in H as [?|H]; [done|]).
        apply elem_of_cons in H as [[= -> ->]|H].
        -- exists (next_ref st + 2). split_and!; [lia | done | simpl; lia |].
           do 3 right. left.
        -- apply elem_of_cons in H as [?|H]; [done|].
           apply elem_of_app in H as [H|H].
           ++ by destruct (Hlogs _ H).
           ++ destruct (ho_throws _); [destruct (ho_headersSent _)|]; simpl in H;
                not_in_trace H.
  - intros H. do 2 (apply elem_of_cons in H as [?|H]; [done|]).
    apply elem_of_cons in H as [[= -> ->]|H].
    + exists (next_ref st + 1). split_and!; [lia | done | simpl; lia |].
      right. left.
    + destruct (sse_connect_throws lib); simpl in H;
        not_in_trace H.
  - intros H. by apply elem_of_nil in H.
  - unfold app_post_messages.
    destruct (instanceof _ _) eqn:Hi; simpl.
    + apply instanceof_Instance in Hi as (t0 & -> & _). simpl.
      intros H. destruct throws;
        not_in_trace H.
    + intros H. not_in_trace H.
Qed.

(** C9. In every reachable state each session of the registry is connected
    to a protocol server that carries exactly the tools of [tools], and two
    different sessions are never connected to the same server object.  Each
    [server.connect] of a request connects a transport created by that
    request to a server created by that request, with the tools of [tools],
    that no earlier connection has used. *)
Theorem sessions_have_their_own_server (tools : list Tools.CallTool) (st : State) :
  reachable tools st →
  (∀ k t, Registry.own (transports st) k = Some t →
     ∃ server, (server, t) ∈ connections st ∧ registeredTools server = tools) ∧
  (∀ k1 k2 t1 t2 server1 server2,
     k1 ≠ k2 →
     Registry.own (transports st) k1 = Some t1 →
     Registry.own (transports st) k2 = Some t2 →
     (server1, t1) ∈ connections st →
     (server2, t2) ∈ connections st →
     srv_ref server1 ≠ srv_ref server2) ∧
  (∀ i server t,
     Connect server t ∈ (step tools i st).2 →
     registeredTools server = tools ∧
     NewTransport t ∈ (step tools i st).2 ∧
     ∀ server' t', (server', t') ∈ connections st →
       srv_ref server' ≠ srv_ref server ∧ t_ref t' ≠ t_ref t).
Proof.
  intros Hwf%reachable_wf. split_and!.
  - intros k t Hown%own_elem_of.
    apply (wf_connected _ _ Hwf) in Hown.
    apply list_elem_of_fmap in Hown as ([server t'] & -> & Hin).
    exists server. split; [done|]. by eapply wf_tools.
  - intros k1 k2 t1 t2 server1 server2 Hne Hown1%own_elem_of Hown2%own_elem_of
      Hin1 Hin2 Heq.
    assert ((server1, t1) = (server2, t2)) as [= _ <-].
    { eapply (NoDup_fmap_eq (srv_ref ∘ fst)); [|done..].
      rewrite list_fmap_compose. apply (wf_servers_nodup _ _ Hwf). }
    apply (wf_sessionId _ _ Hwf) in Hown1, Hown2. congruence.
  - intros i server t (ref & Href & -> & Ht & Hnew)%step_connects.
    split_and!; [apply getServer_tools | done |].
    intros server' t' (Hs & Ht' & _)%(wf_refs _ _ Hwf).
    rewrite getServer_ref. lia.
Qed.

Lemma sessions_have_their_own_server_witness :
  reachable Sample.tools Sample.two_sessions ∧
  (∃ server, (server, Sample.streamable1) ∈ connections Sample.two_sessions ∧
             registeredTools server = [Tools.fakeTool]) ∧
  (∃ server, (server, Sample.sse3) ∈ connections Sample.two_sessions ∧
             registeredTools server = [Tools.fakeTool]).
Proof.
  pose proof (sessions_have_their_own_server Sample.tools Sample.two_sessions
                sample_two_sessions_reachable) as (Hserver & _ & _).
  split; [exact sample_two_sessions_reachable|]. split.
  - apply (Hserver Sample.id1). reflexivity.
  - apply (Hserver Sample.id2). reflexivity.
Defined.

(** * More properties of the handlers *)

(** ** Requests of an existing Streamable session *)

Lemma truthy_string_Some s : truthy_string (Some s) = true → s ≠ "".
Proof. simpl. intros H ->. discriminate H. Qed.

(** The [/mcp] handler on a request whose header names a Streamable
    transport of the registry. *)
Lemma app_all_mcp_reuse tools req lib st sid t :
  mcp_session_id req = Some sid →
  truthy_string (Some sid) = true →
  Registry.own (transports st) sid = Some t →
  t_class t = StreamableHTTPServerTransport →
  app_all_mcp tools req lib st =
    ((run_handleRequest t (handleRequest lib) st).1,
     ConsoleLog ("Received " +:+ method req +:+ " request to /mcp")
     :: HandleRequest t :: (run_handleRequest t (handleRequest lib) st).2
     ++ (if ho_throws (handleRequest lib)
         then catch_block (ho_headersSent (handleRequest lib)) else [])).
Proof.
  intros Hhdr Htruthy Hown Hcls. unfold app_all_mcp.
  rewrite Hhdr, Htruthy. cbn [key_of].
  rewrite (get_own _ _ _ Hown). cbn [truthy_slot andb instanceof].
  rewrite Hcls, bool_decide_eq_true_2 by done.
  unfold handle, method_call.
  by destruct (run_handleRequest t (handleRequest lib) st).
Qed.

Lemma run_handleRequest_plain t o st :
  ho_initialized o = None →
  run_handleRequest t o st = if ho_closed o then onclose t st else (st, []).
Proof.
  intros Hinit. unfold run_handleRequest. rewrite Hinit.
  destruct (ho_closed o); [by destruct (onclose t st) | done].
Qed.

Lemma onclose_registered st t k :
  sessionId_of st t = Some k → k ≠ "" → is_Some (Registry.own (transports st) k) →
  onclose t st =
    (with_transports (Registry.delete (transports st) k) st,
     [ConsoleLog ("Transport closed for session " +:+ k)]).
Proof.
  intros Hsid Hne [t' Hown]. unfold onclose. rewrite Hsid. cbn [key_of truthy_string].
  apply String.eqb_neq in Hne as ->.
  by rewrite (get_own _ _ _ Hown).
Qed.

Lemma onclose_trace t st :
  ∀ e, e ∈ (onclose t st).2 → ∃ msg, e = ConsoleLog msg.
Proof.
  unfold onclose. destruct (_ && _); simpl; intros e He.
  - apply list_elem_of_singleton in He as ->. by eexists.
  - by apply elem_of_nil in He.
Qed.

Lemma onclose_keeps_objects t st :
  sessionIds (onclose t st).1 = sessionIds st ∧
  connections (onclose t st).1 = connections st ∧
  next_ref (onclose t st).1 = next_ref st.
Proof. unfold onclose. by destruct (_ && _). Qed.

(** X1. In a reachable state, a request to [/mcp] whose header names a
    Streamable session is handed to the transport of that session and to no
    other, whatever its method, body and token; nothing is constructed; the
    router writes no response unless the handling fails; and unless the
    transport closes itself during the handling the state is left as it
    was. *)
Theorem session_request_reaches_its_transport
    (tools : list Tools.CallTool) (st : State) (req : McpRequest)
    (lib : McpLibrary) (sid : string) (t : Transport) :
  reachable tools st →
  mcp_session_id req = Some sid →
  Registry.own (transports st) sid = Some t →
  t_class t = StreamableHTTPServerTransport →
  ho_initialized (handleRequest lib) = None →
  let r := app_all_mcp tools req lib st in
  handoffs r.2 = [t] ∧
  (ho_throws (handleRequest lib) = false → responses r.2 = [] ∧ errors r.2 = []) ∧
  (ho_closed (handleRequest lib) = false → r.1 = st) ∧
  connections r.1 = connections st ∧
  next_ref r.1 = next_ref st ∧
  sessionIds r.1 = sessionIds st.
Proof.
  intros Hreach Hhdr Hown Hcls Hinit r. subst r.
  rewrite (app_all_mcp_reuse _ _ _ _ sid t)
    by eauto using reachable_key_truthy.
  rewrite run_handleRequest_plain by done. cbn [fst snd].
  pose proof (onclose_trace t st) as Hlogs.
  pose proof (onclose_keeps_objects t st) as (Hs & Hc & Hn).
  split_and!.
  - unfold handoffs. cbn [omap]. simpl. rewrite omap_app.
    rewrite (omap_ConsoleLog _ (if ho_closed _ then _ else _).2).
    + fold (handoffs (if ho_throws (handleRequest lib)
                      then catch_block (ho_headersSent (handleRequest lib)) else [])).
      destruct (ho_throws _); [by rewrite catch_block_handoffs | done].
    + done.
    + destruct (ho_closed _); [done | intros e He; by apply elem_of_nil in He].
  - intros ->. rewrite app_nil_r. unfold responses, errors. simpl.
    rewrite !(omap_ConsoleLog _ (if ho_closed _ then _ else _).2); try done;
      destruct (ho_closed _); try done; intros e He; by apply elem_of_nil in He.
  - by intros ->.
  - by destruct (ho_closed _).
  - by destruct (ho_closed _).
  - by destruct (ho_closed _).
Qed.

Lemma session_request_reaches_its_transport_witness :
  reachable Sample.tools Sample.two_sessions ∧
  let r := app_all_mcp Sample.tools (Sample.post_to Sample.id1) Sample.answers
             Sample.two_sessions in
  handoffs r.2 = [Sample.streamable1] ∧ r.1 = Sample.two_sessions.
Proof.
  split; [exact sample_two_sessions_reachable|].
  pose proof (session_request_reaches_its_transport Sample.tools Sample.two_sessions
                (Sample.post_to Sample.id1) Sample.answers Sample.id1
                Sample.streamable1 sample_two_sessions_reachable
                eq_refl eq_refl eq_refl eq_refl) as (Hh & _ & Hst & _).
  split; [exact Hh | by apply Hst].
Defined.

(** X2. In a reachable state, when the transport of a Streamable session
    closes itself while it handles a request of that session (a [DELETE]),
    [onclose] removes the entry of that session from the registry and logs
    it; every other session keeps its entry and its place. *)
Theorem closing_session_removes_its_entry
    (tools : list Tools.CallTool) (st : State) (req : McpRequest)
    (lib : McpLibrary) (sid : string) (t : Transport) :
  reachable tools st →
  mcp_session_id req = Some sid →
  Registry.own (transports st) sid = Some t →
  t_class t = StreamableHTTPServerTransport →
  ho_initialized (handleRequest lib) = None →
  ho_closed (handleRequest lib) = true →
  let r := app_all_mcp tools req lib st in
  transports r.1 = Registry.delete (transports st) sid ∧
  Registry.own (transports r.1) sid = None ∧
  (∀ k, k ≠ sid → Registry.own (transports r.1) k = Registry.own (transports st) k) ∧
  ConsoleLog ("Transport closed for session " +:+ sid) ∈ r.2 ∧
  handoffs r.2 = [t].
Proof.
  intros Hreach Hhdr Hown Hcls Hinit Hclosed r. subst r.
  pose proof (reachable_key_truthy _ _ _ _ Hreach Hown) as Htruthy.
  rewrite (app_all_mcp_reuse _ _ _ _ sid t) by done.
  rewrite run_handleRequest_plain, Hclosed by done.
  rewrite (onclose_registered st t sid).
  - cbn [fst snd transports with_transports]. split_and!.
    + done.
    + apply own_delete_eq.
    + intros k Hne. by apply own_delete_ne.
    + do 2 right. left.
    + by destruct (ho_throws _); [destruct (ho_headersSent _)|].
  - apply (wf_sessionId _ _ (reachable_wf _ _ Hreach)). by apply own_elem_of.
  - by apply truthy_string_Some.
  - by exists t.
Qed.

Lemma closing_session_removes_its_entry_witness :
  reachable Sample.tools Sample.two_sessions ∧
  transports (app_all_mcp Sample.tools (Scenario.delete_of Sample.id1)
                Scenario.terminates Sample.two_sessions).1 =
    [(Sample.id2, Sample.sse3)].
Proof.
  split; [exact sample_two_sessions_reachable|].
  apply (closing_session_removes_its_entry Sample.tools Sample.two_sessions
           (Scenario.delete_of Sample.id1) Scenario.terminates Sample.id1
           Sample.streamable1 sample_two_sessions_reachable);
    reflexivity.
Defined.

(** ** The life of a Streamable session *)

(** The state after an accepted initialization. *)
Lemma app_all_mcp_initialize tools req lib st sid :
  truthy_string (mcp_session_id req) = false →
  method req = "POST" →
  isInitializeRequest req = true →
  truthy_query (token req) = true →
  connect_throws lib = false →
  ho_initialized (handleRequest lib) = Some sid →
  ho_closed (handleRequest lib) = false →
  let transport :=
    {| t_ref := next_ref st + 1; t_class := StreamableHTTPServerTransport;
       t_eventStore := Some (next_ref st) |} in
  (app_all_mcp tools req lib st).1 =
    {| transports := Registry.set (transports st) sid transport;
       sessionIds := <[next_ref st + 1 := sid]> (sessionIds st);
       connections := connections st ++ [(getServer tools (next_ref st + 2), transport)];
       next_ref := next_ref st + 3 |}.
Proof.
  intros Hsid Hm Hinit Htok Hconn Hsome Hclosed.
  unfold app_all_mcp. rewrite Hsid, Hm, Hinit, Htok, Hconn. simpl.
  unfold handle, method_call, run_handleRequest.
  by rewrite Hsome, Hclosed.
Qed.

Lemma delete_set_absent (r : Registry) k t :
  Registry.own r k = None → Registry.delete (Registry.set r k t) k = r.
Proof.
  intros Hown. rewrite set_absent, delete_app by done. simpl.
  rewrite String.eqb_refl, delete_absent by done. apply app_nil_r.
Qed.

(** X3. A session that an accepted initialization has created under a new
    id is served, on every later request to [/mcp] that carries this id, by
    the transport the initialization constructed.  If that transport does
    not close itself the request leaves the state as it was; if it does (a
    [DELETE]), the registry is again what it was before the
    initialization. *)
Theorem initialized_session_is_served_until_terminated
    (tools : list Tools.CallTool) (st : State) (req req' : McpRequest)
    (lib lib' : McpLibrary) (sid : string) :
  truthy_string (mcp_session_id req) = false →
  method req = "POST" →
  isInitializeRequest req = true →
  truthy_query (token req) = true →
  connect_throws lib = false →
  ho_initialized (handleRequest lib) = Some sid →
  ho_closed (handleRequest lib) = false →
  is_uuid sid = true →
  Registry.own (transports st) sid = None →
  mcp_session_id req' = Some sid →
  ho_initialized (handleRequest lib') = None →
  let transport :=
    {| t_ref := next_ref st + 1; t_class := StreamableHTTPServerTransport;
       t_eventStore := Some (next_ref st) |} in
  let st1 := (app_all_mcp tools req lib st).1 in
  let r := app_all_mcp tools req' lib' st1 in
  Registry.own (transports st1) sid = Some transport ∧
  handoffs r.2 = [transport] ∧
  (ho_closed (handleRequest lib') = false → r.1 = st1) ∧
  (ho_closed (handleRequest lib') = true → transports r.1 = transports st).
Proof.
  intros Hsid Hm Hinit Htok Hconn Hsome Hclosed Hu Hown Hhdr' Hinit' transport st1 r.
  assert (Registry.own (transports st1) sid = Some transport) as Hown1.
  { subst st1. rewrite (app_all_mcp_initialize _ _ _ _ sid) by done.
    apply own_set_eq. }
  assert (sessionId_of st1 transport = Some sid) as Hsid1.
  { subst st1. rewrite (app_all_mcp_initialize _ _ _ _ sid) by done.
    unfold sessionId_of. simpl. apply lookup_insert_eq. }
  assert (Registry.delete (transports st1) sid = transports st) as Hdel.
  { subst st1. rewrite (app_all_mcp_initialize _ _ _ _ sid) by done.
    by apply delete_set_absent. }
  subst r.
  rewrite (app_all_mcp_reuse _ _ _ _ sid transport)
    by eauto using is_uuid_truthy.
  rewrite run_handleRequest_plain by done.
  split_and!; [done | | |].
  - pose proof (onclose_trace transport st1) as Hlogs.
    cbn [snd]. unfold handoffs. simpl. rewrite omap_app.
    rewrite (omap_ConsoleLog _ (if ho_closed _ then _ else _).2).
    + fold (handoffs (if ho_throws (handleRequest lib')
                      then catch_block (ho_headersSent (handleRequest lib')) else [])).
      destruct (ho_throws _); [by rewrite catch_block_handoffs | done].
    + done.
    + destruct (ho_closed (handleRequest lib'));
        [done | intros e He; by apply elem_of_nil in He].
  - by intros ->.
  - intros ->. rewrite (onclose_registered st1 transport sid);
      [done | done | by apply is_uuid_nonempty | by eexists].
Qed.

Lemma initialized_session_is_served_until_terminated_witness :
  let st1 := (app_all_mcp Sample.tools Sample.initialize (Sample.accepts Sample.id3)
                Sample.two_sessions).1 in
  let r := app_all_mcp Sample.tools (Scenario.delete_of Sample.id3)
             Scenario.terminates st1 in
  Registry.own (transports st1) Sample.id3 = Some Scenario.streamable6 ∧
  handoffs r.2 = [Scenario.streamable6] ∧
  transports r.1 = transports Sample.two_sessions.
Proof.
  pose proof (initialized_session_is_served_until_terminated Sample.tools
                Sample.two_sessions Sample.initialize (Scenario.delete_of Sample.id3)
                (Sample.accepts Sample.id3) Scenario.terminates Sample.id3
                eq_refl eq_refl eq_refl eq_refl eq_refl eq_refl eq_refl eq_refl
                eq_refl eq_refl eq_refl) as (H1 & H2 & _ & H3).
  split; [exact H1|]. split; [exact H2|]. by apply H3.
Defined.

(** ** Rejections of the [/mcp] handler *)

(** X4. A request to [/mcp] without a session id (or with an empty one)
    that is not an initialization, because its method is not [POST] or its
    body is not an initialization message, is answered with status 400 and
    the [InvalidSession] envelope, whatever its token; the state stays as it
    was and nothing else happens. *)
Theorem request_without_session_rejected
    (tools : list Tools.CallTool) (req : McpRequest) (lib : McpLibrary) (st : State) :
  truthy_string (mcp_session_id req) = false →
  method req ≠ "POST" ∨ isInitializeRequest req = false →
  app_all_mcp tools req lib st =
    (st, [ConsoleLog ("Received " +:+ method req +:+ " request to /mcp");
          Respond 400 InvalidSession]).
Proof.
  intros Hsid Hnot. unfold app_all_mcp. rewrite Hsid. cbn [andb negb].
  destruct Hnot as [Hm%String.eqb_neq | Hinit].
  - by rewrite Hm.
  - rewrite Hinit. by rewrite andb_false_r.
Qed.

Lemma request_without_session_rejected_witness :
  app_all_mcp Sample.tools Scenario.get_without_session Sample.answers
    Sample.two_sessions =
    (Sample.two_sessions,
     [ConsoleLog "Received GET request to /mcp"; Respond 400 InvalidSession]).
Proof.
  apply (request_without_session_rejected Sample.tools Scenario.get_without_session
           Sample.answers Sample.two_sessions); [reflexivity|].
  left. discriminate.
Defined.

Lemma handle_readers t o st :
  handoffs (handle (Instance t) o st).2 = [t] ∧
  responses (handle (Instance t) o st).2 =
    (if ho_throws o && negb (ho_headersSent o) then [(500%Z, InternalError)] else []) ∧
  errors (handle (Instance t) o st).2 =
    (if ho_throws o then ["Error handling MCP request:"] else []).
Proof.
  split; [apply handle_handoffs|].
  destruct (handle_trace t o st) as (logs & Hlogs & ->).
  unfold responses, errors. simpl. rewrite !omap_app.
  rewrite !(omap_ConsoleLog _ logs) by done.
  by destruct (ho_throws o), (ho_headersSent o).
Qed.

Lemma responses_cons e es :
  responses (e :: es) =
  match e with Respond status body => [(status, body)] | _ => [] end ++ responses es.
Proof. by destruct e. Qed.

Lemma handoffs_cons e es :
  handoffs (e :: es) =
  match e with HandleRequest t | HandlePostMessage t => [t] | _ => [] end
  ++ handoffs es.
Proof. by destruct e. Qed.

Lemma errors_cons e es :
  errors (e :: es) =
  match e with ConsoleError msg => [msg] | _ => [] end ++ errors es.
Proof. by destruct e. Qed.

(** Reads a trace given as explicit effects in front of a known rest. *)
Ltac read_trace :=
  rewrite ?responses_cons, ?handoffs_cons, ?errors_cons; cbn [app].

(** X5. The [/mcp] handler writes at most one response per request and
    hands the request to at most one transport.  A response it writes is
    either a 400 with one of the three request-error envelopes, and then the
    state is unchanged and no transport has seen the request, or a 500 with
    the [InternalError] envelope, and then the error has been logged. *)
Theorem mcp_writes_at_most_one_response
    (tools : list Tools.CallTool) (req : McpRequest) (lib : McpLibrary) (st : State) :
  let r := app_all_mcp tools req lib st in
  (List.length (responses r.2) ≤ 1)%nat ∧
  (List.length (handoffs r.2) ≤ 1)%nat ∧
  (∀ status body, (status, body) ∈ responses r.2 →
     (status = 400%Z ∧
      body ∈ [WrongTransportForSession; MissingToken; InvalidSession] ∧
      r.1 = st ∧ handoffs r.2 = []) ∨
     (status = 500%Z ∧ body = InternalError ∧
      errors r.2 = ["Error handling MCP request:"])).
Proof.
  assert (∀ t o s (pre : list Effect),
            responses pre = [] → handoffs pre = [] → errors pre = [] →
            let es := pre ++ (handle (Instance t) o s).2 in
            (List.length (responses es) ≤ 1)%nat ∧
            (List.length (handoffs es) ≤ 1)%nat ∧
            ∀ status body, (status, body) ∈ responses es →
              status = 500%Z ∧ body = InternalError ∧
              errors es = ["Error handling MCP request:"]) as Hhandled.
  { intros t o s pre Hr0 Hh0 He0 es. subst es.
    destruct (handle_readers t o s) as (Hh & Hr & He).
    unfold responses, handoffs, errors in *. rewrite !omap_app.
    rewrite Hr0, Hh0, He0, Hh, Hr, He. cbn [app].
    split_and!.
    - destruct (_ && _); simpl; lia.
    - simpl. lia.
    - intros status body Hin.
      destruct (ho_throws o), (ho_headersSent o); simpl in Hin;
        try by apply elem_of_nil in Hin.
      by apply list_elem_of_singleton in Hin as [= -> ->]. }
  intros r. subst r. unfold app_all_mcp.
  destruct (truthy_string (mcp_session_id req) && _); cbn [andb negb].
  - destruct (instanceof _ _) eqn:Hi.
    + apply instanceof_Instance in Hi as (t & -> & _).
      specialize (Hhandled t (handleRequest lib) st
                    [ConsoleLog ("Received " +:+ method req +:+ " request to /mcp")]
                    eq_refl eq_refl eq_refl).
      destruct (handle _ _ _) as [st1 es]. cbn [fst snd app] in *.
      destruct Hhandled as (H1 & H2 & H3). split_and!; [done.. |].
      intros status body Hin. right. by apply H3.
    + cbn [fst snd]. read_trace. simpl. split_and!; [lia.. |].
      intros status body [= -> ->]%list_elem_of_singleton. left.
      split_and!; [done | left | done..].
  - destruct (_ && isInitializeRequest req); cbn [andb negb].
    + destruct (truthy_query _); cbn [negb].
      * destruct (connect_throws lib).
        -- cbn [fst snd]. simpl. split_and!; [lia.. |].
           intros status body [= -> ->]%list_elem_of_singleton. by right.
        -- match goal with
           | |- context [handle (Instance ?tr) ?o ?s] =>
               match goal with
               | |- context [(?a :: ?b :: ?c :: ?d :: ?e :: []) ++ _] =>
                   specialize (Hhandled tr o s [a; b; c; d; e] eq_refl eq_refl eq_refl)
               end;
               destruct (handle (Instance tr) o s) as [st1 es]
           end.
           cbn [fst snd] in *.
           destruct Hhandled as (H1 & H2 & H3). split_and!; [done.. |].
           intros status body Hin. right. by apply H3.
      * cbn [fst snd]. read_trace. simpl. split_and!; [lia.. |].
        intros status body [= -> ->]%list_elem_of_singleton. left.
        split_and!; [done | right; left | done..].
    + cbn [fst snd]. read_trace. simpl. split_and!; [lia.. |].
      intros status body [= -> ->]%list_elem_of_singleton. left.
      split_and!; [done | do 2 right; left | done..].
Qed.

(** X6. When [server.connect] rejects during an initialization, the
    [catch] block logs the error and answers with status 500 and the
    [InternalError] envelope; the new transport never sees the request and
    is not entered in the registry. *)
Theorem connect_failure_reported
    (tools : list Tools.CallTool) (req : McpRequest) (lib : McpLibrary) (st : State) :
  truthy_string (mcp_session_id req) = false →
  method req = "POST" →
  isInitializeRequest req = true →
  truthy_query (token req) = true →
  connect_throws lib = true →
  let r := app_all_mcp tools req lib st in
  responses r.2 = [(500%Z, InternalError)] ∧
  errors r.2 = ["Error handling MCP request:"] ∧
  handoffs r.2 = [] ∧
  transports r.1 = transports st ∧
  sessionIds r.1 = sessionIds st.
Proof.
  intros Hsid Hm Hinit Htok Hconn r. subst r.
  unfold app_all_mcp. rewrite Hsid, Hm, Hinit, Htok, Hconn. by simpl.
Qed.

Lemma connect_failure_reported_witness :
  let r := app_all_mcp Sample.tools Sample.initialize Scenario.connect_fails
             Sample.two_sessions in
  responses r.2 = [(500%Z, InternalError)] ∧
  transports r.1 = transports Sample.two_sessions.
Proof.
  pose proof (connect_failure_reported Sample.tools Sample.initialize
                Scenario.connect_fails Sample.two_sessions
                eq_refl eq_refl eq_refl eq_refl eq_refl) as (H1 & _ & _ & H2 & _).
  split; [exact H1 | exact H2].
Defined.

(** ** The life of a legacy session *)

(** The state after a [/sse] request. *)
Lemma app_get_sse_state tools lib st :
  let transport :=
    {| t_ref := next_ref st; t_class := SSEServerTransport; t_eventStore := None |} in
  (app_get_sse tools lib st).1 =
    {| transports := Registry.set (transports st) (randomUUID lib) transport;
       sessionIds := <[next_ref st := randomUUID lib]> (sessionIds st);
       connections :=
         connections st ++ [(getServer tools (next_ref st + 1), transport)];
       next_ref := next_ref st + 1 + 1 |}.
Proof.
  unfold app_get_sse. simpl. unfold sessionId_of. simpl.
  by rewrite lookup_insert_eq.
Qed.

Lemma app_post_messages_deliver req throws st t :
  Registry.own (transports st) (to_property_key (query_sessionId req)) = Some t →
  t_class t = SSEServerTransport →
  app_post_messages req throws st =
    (st, HandlePostMessage t :: (if throws then [Rejected] else [])).
Proof.
  intros Hown Hcls. unfold app_post_messages.
  rewrite (get_own _ _ _ Hown). simpl. by rewrite Hcls.
Qed.

(** X7. Every [GET /sse] opens a legacy session, without any token: the
    new SSE transport is entered in the registry under the session id it
    drew and connected to a new protocol server, the router writes no
    response (the transport owns the stream), and a later
    [POST /messages?sessionId=<id>] is handed to that transport and leaves
    the state as it is. *)
Theorem sse_request_opens_legacy_session
    (tools : list Tools.CallTool) (st : State) (lib : SseLibrary) :
  is_uuid (randomUUID lib) = true →
  Registry.own (transports st) (randomUUID lib) = None →
  let transport :=
    {| t_ref := next_ref st; t_class := SSEServerTransport; t_eventStore := None |} in
  let r := app_get_sse tools lib st in
  transports r.1 = transports st ++ [(randomUUID lib, transport)] ∧
  sessionId_of r.1 transport = Some (randomUUID lib) ∧
  connections r.1 =
    connections st ++ [(getServer tools (next_ref st + 1), transport)] ∧
  responses r.2 = [] ∧
  handoffs r.2 = [] ∧
  (∀ req throws,
     query_sessionId req = Some (QString (randomUUID lib)) →
     app_post_messages req throws r.1 =
       (r.1, HandlePostMessage transport :: (if throws then [Rejected] else []))).
Proof.
  intros Hu Hown transport r. subst r.
  pose proof (app_get_sse_state tools lib st) as Hst. cbv zeta in Hst.
  fold transport in Hst.
  split_and!.
  - rewrite Hst. simpl. by apply set_absent.
  - rewrite Hst. unfold sessionId_of. simpl. apply lookup_insert_eq.
  - by rewrite Hst.
  - unfold app_get_sse. simpl. by destruct (sse_connect_throws lib).
  - unfold app_get_sse. simpl. by destruct (sse_connect_throws lib).
  - intros req throws Hq. apply app_post_messages_deliver; [|done].
    rewrite Hq, Hst. simpl. apply own_set_eq.
Qed.

Lemma sse_request_opens_legacy_session_witness :
  let r := app_get_sse Sample.tools (Scenario.draws Sample.id3) Sample.two_sessions in
  transports r.1 =
    [(Sample.id1, Sample.streamable1); (Sample.id2, Sample.sse3);
     (Sample.id3, Scenario.sse5)] ∧
  app_post_messages (Sample.message_to Sample.id3) false r.1 =
    (r.1, [HandlePostMessage Scenario.sse5]).
Proof.
  pose proof (sse_request_opens_legacy_session Sample.tools Sample.two_sessions
                (Scenario.draws Sample.id3) eq_refl eq_refl)
    as (H1 & _ & _ & _ & _ & H2).
  split; [exact H1|].
  apply (H2 (Sample.message_to Sample.id3) false). reflexivity.
Defined.

(** X8. In a reachable state, the ["close"] event of the response of a
    legacy session removes the entry of that session and no other; a
    [POST /messages] for its id is rejected with status 400 afterwards.
    Opening a legacy session under a new id and closing its connection
    leaves the registry as it was. *)
Theorem sse_connection_close_removes_session
    (tools : list Tools.CallTool) (st : State) (k : string) (t : Transport) :
  reachable tools st →
  Registry.own (transports st) k = Some t →
  let st' := res_on_close t st in
  transports st' = Registry.delete (transports st) k ∧
  Registry.own (transports st') k = None ∧
  (∀ k', k' ≠ k → Registry.own (transports st') k' = Registry.own (transports st) k') ∧
  (∀ req throws,
     query_sessionId req = Some (QString k) →
     app_post_messages req throws st' = (st', [Respond 400 WrongTransportForSession])) ∧
  (∀ lib,
     Registry.own (transports st) (randomUUID lib) = None →
     transports
       (res_on_close
          {| t_ref := next_ref st; t_class := SSEServerTransport; t_eventStore := None |}
          (app_get_sse tools lib st).1) = transports st).
Proof.
  intros Hreach Hown st'.
  pose proof (reachable_wf _ _ Hreach) as Hwf.
  assert (sessionId_of st t = Some k) as Hsid
    by by apply (wf_sessionId _ _ Hwf), own_elem_of.
  assert (transports st' = Registry.delete (transports st) k) as Htr.
  { subst st'. unfold res_on_close. by rewrite Hsid. }
  split_and!.
  - done.
  - rewrite Htr. apply own_delete_eq.
  - intros k' Hne. rewrite Htr. by apply own_delete_ne.
  - intros req throws Hq. unfold app_post_messages, Registry.get.
    rewrite Hq. cbn [to_property_key]. rewrite Htr, own_delete_eq.
    rewrite bool_decide_eq_false_2; [done|].
    apply is_uuid_not_inherited, (wf_keys_uuid _ _ Hwf k t). by apply own_elem_of.
  - intros lib Hfresh. pose proof (app_get_sse_state tools lib st) as Hst.
    cbv zeta in Hst. rewrite Hst. unfold res_on_close, sessionId_of. simpl.
    rewrite lookup_insert_eq. simpl. by apply delete_set_absent.
Qed.

Lemma sse_connection_close_removes_session_witness :
  reachable Sample.tools Sample.two_sessions ∧
  transports (res_on_close Sample.sse3 Sample.two_sessions) =
    [(Sample.id1, Sample.streamable1)] ∧
  app_post_messages (Sample.message_to Sample.id2) false
    (res_on_close Sample.sse3 Sample.two_sessions) =
    (res_on_close Sample.sse3 Sample.two_sessions,
     [Respond 400 WrongTransportForSession]).
Proof.
  split; [exact sample_two_sessions_reachable|].
  pose proof (sse_connection_close_removes_session Sample.tools Sample.two_sessions
                Sample.id2 Sample.sse3 sample_two_sessions_reachable eq_refl)
    as (H1 & _ & _ & H2 & _).
  split; [exact H1|].
  apply (H2 (Sample.message_to Sample.id2) false). reflexivity.
Defined.

(** X9. The [/messages] handler never changes the state, so it creates and
    removes no session, whatever the request and whether the handling
    rejects; and it does exactly one of two things: it writes one response
    or it hands the request to one transport. *)
Theorem messages_request_changes_nothing
    (req : MessagesRequest) (throws : bool) (st : State) :
  let r := app_post_messages req throws st in
  r.1 = st ∧
  (List.length (responses r.2) + List.length (handoffs r.2) = 1)%nat.
Proof.
  intros r. subst r. unfold app_post_messages.
  destruct (instanceof _ _) eqn:Hi; [|done].
  apply instanceof_Instance in Hi as (t & -> & _). simpl.
  by destruct throws.
Qed.

(** ** What the registry holds *)

(** X10. In every reachable state the keys of the registry are pairwise
    different ids drawn by [randomUUID()], none of them a name that the
    registry object inherits; the transport stored under a key carries that
    key as its [sessionId] and is what a read of the key yields; and no
    transport object is stored under two keys. *)
Theorem registry_entries_are_sessions (tools : list Tools.CallTool) (st : State) :
  reachable tools st →
  NoDup (Registry.keys (transports st)) ∧
  (∀ k t, Registry.own (transports st) k = Some t →
     is_uuid k = true ∧ (k ∉ Object_prototype) ∧
     sessionId_of st t = Some k ∧
     Registry.get (transports st) k = Instance t) ∧
  (∀ k1 k2 t1 t2,
     Registry.own (transports st) k1 = Some t1 →
     Registry.own (transports st) k2 = Some t2 →
     t_ref t1 = t_ref t2 → k1 = k2 ∧ t1 = t2).
Proof.
  intros Hwf%reachable_wf. split_and!.
  - apply (wf_keys_nodup _ _ Hwf).
  - intros k t Hown. pose proof (own_elem_of _ _ _ Hown) as Hin.
    pose proof (wf_keys_uuid _ _ Hwf _ _ Hin) as Hu.
    split_and!; [done | by apply is_uuid_not_inherited | | by apply get_own].
    by apply (wf_sessionId _ _ Hwf).
  - intros k1 k2 t1 t2 Hown1 Hown2 Href.
    pose proof (wf_sessionId _ _ Hwf _ _ (own_elem_of _ _ _ Hown1)) as H1.
    pose proof (wf_sessionId _ _ Hwf _ _ (own_elem_of _ _ _ Hown2)) as H2.
    unfold sessionId_of in *. rewrite Href in H1.
    assert (k1 = k2) as -> by congruence.
    split; [done | congruence].
Qed.

Lemma registry_entries_are_sessions_witness :
  reachable Sample.tools Sample.two_sessions ∧
  NoDup (Registry.keys (transports Sample.two_sessions)) ∧
  sessionId_of Sample.two_sessions Sample.sse3 = Some Sample.id2.
Proof.
  split; [exact sample_two_sessions_reachable|].
  pose proof (registry_entries_are_sessions Sample.tools Sample.two_sessions
                sample_two_sessions_reachable) as (H1 & H2 & _).
  split; [exact H1|].
  by destruct (H2 Sample.id2 Sample.sse3 eq_refl) as (_ & _ & H & _).
Defined.

Lemma run_handleRequest_connections t o st :
  connections (run_handleRequest t o st).1 = connections st.
Proof.
  unfold run_handleRequest.
  destruct (ho_initialized o) as [sid|]; simpl.
  - destruct (ho_closed o); simpl; [|done].
    match goal with
    | |- context [onclose t ?s] =>
        pose proof (onclose_keeps_objects t s) as (_ & Hc & _);
        destruct (onclose t s)
    end.
    by simpl in *.
  - destruct (ho_closed o); simpl; [|done].
    pose proof (onclose_keeps_objects t st) as (_ & Hc & _).
    by destruct (onclose t st).
Qed.

(** The connections of a state after a step: those it had, and at most one
    new one, of a transport built with the event store of its class. *)
Lemma step_connections tools i st :
  ∃ new,
    connections (step tools i st).1 = connections st ++ new ∧
    ∀ server t, (server, t) ∈ new → store_matches_class t.
Proof.
  destruct i as [req lib|lib|t|req throws]; simpl.
  - unfold app_all_mcp.
    destruct (truthy_string (mcp_session_id req) && _); cbn [andb negb].
    + destruct (instanceof _ _) eqn:Hi.
      * apply instanceof_Instance in Hi as (t & -> & _).
        pose proof (handle_state st t (handleRequest lib)) as Hst.
        pose proof (run_handleRequest_connections t (handleRequest lib) st) as Hc.
        destruct (handle _ _ _) as [st1 es]. cbn [fst] in *. subst st1.
        exists []. rewrite app_nil_r. split; [done|].
        intros ? ? H. by apply elem_of_nil in H.
      * exists []. rewrite app_nil_r. split; [done|].
        intros ? ? H. by apply elem_of_nil in H.
    + destruct (_ && isInitializeRequest req); cbn [andb negb].
      2:{ exists []. rewrite app_nil_r. split; [done|].
          intros ? ? H. by apply elem_of_nil in H. }
      destruct (truthy_query _); cbn [negb].
      2:{ exists []. rewrite app_nil_r. split; [done|].
          intros ? ? H. by apply elem_of_nil in H. }
      eexists [(_, _)]. split.
      * destruct (connect_throws lib); [reflexivity|].
        match goal with
        | |- context [handle (Instance ?tr) ?o ?s] =>
            pose proof (handle_state s tr o) as Hst;
            pose proof (run_handleRequest_connections tr o s) as Hc;
            destruct (handle (Instance tr) o s) as [st1 es]
        end.
        cbn [fst] in *. subst st1. rewrite Hc. reflexivity.
      * intros server t [= -> ->]%list_elem_of_singleton.
        unfold store_matches_class. simpl. split; [f_equal; lia | lia].
  - eexists [(_, _)]. split; [reflexivity|].
    by intros server t [= -> ->]%list_elem_of_singleton.
  - exists []. rewrite app_nil_r. split; [done|].
    intros ? ? H. by apply elem_of_nil in H.
  - rewrite app_post_messages_state. exists []. rewrite app_nil_r. split; [done|].
    intros ? ? H. by apply elem_of_nil in H.
Qed.

Lemma reachable_store_matches_class tools st :
  reachable tools st →
  ∀ server t, (server, t) ∈ connections st → store_matches_class t.
Proof.
  induction 1 as [|st i _ IH _]; intros server t Hin.
  - by apply elem_of_nil in Hin.
  - destruct (step_connections tools i st) as (new & Heq & Hnew).
    rewrite Heq in Hin. apply elem_of_app in Hin as [Hin|Hin]; eauto.
Qed.

(** X11. In every reachable state each Streamable session of the registry
    has an event store and each legacy session has none, and no event store
    belongs to the transports of two sessions. *)
Theorem event_store_per_streamable_session (tools : list Tools.CallTool) (st : State) :
  reachable tools st →
  (∀ k t, Registry.own (transports st) k = Some t →
     match t_class t with
     | StreamableHTTPServerTransport => is_Some (t_eventStore t)
     | SSEServerTransport => t_eventStore t = None
     end) ∧
  (∀ k1 k2 t1 t2 e,
     k1 ≠ k2 →
     Registry.own (transports st) k1 = Some t1 →
     Registry.own (transports st) k2 = Some t2 →
     t_eventStore t1 = Some e → t_eventStore t2 ≠ Some e).
Proof.
  intros Hreach. pose proof (reachable_wf _ _ Hreach) as Hwf.
  assert (∀ k t, Registry.own (transports st) k = Some t → store_matches_class t)
    as Hstore.
  { intros k t Hown%own_elem_of.
    apply (wf_connected _ _ Hwf) in Hown.
    apply list_elem_of_fmap in Hown as ([server t'] & -> & Hin).
    by eapply reachable_store_matches_class. }
  split.
  - intros k t Hown. specialize (Hstore k t Hown). unfold store_matches_class in Hstore.
    destruct (t_class t); [by destruct Hstore as [-> _] | done].
  - intros k1 k2 t1 t2 e Hne Hown1 Hown2 He1 He2.
    pose proof (Hstore _ _ Hown1) as Hs1. pose proof (Hstore _ _ Hown2) as Hs2.
    unfold store_matches_class in *.
    destruct (t_class t1); [|congruence]. destruct (t_class t2); [|congruence].
    destruct Hs1 as [Hs1 ?], Hs2 as [Hs2 ?].
    assert (t_ref t1 = t_ref t2) as Href.
    { rewrite He1 in Hs1. rewrite He2 in Hs2. simplify_eq. lia. }
    pose proof (wf_sessionId _ _ Hwf _ _ (own_elem_of _ _ _ Hown1)) as H1.
    pose proof (wf_sessionId _ _ Hwf _ _ (own_elem_of _ _ _ Hown2)) as H2.
    unfold sessionId_of in *. rewrite Href in H1. congruence.
Qed.

Lemma event_store_per_streamable_session_witness :
  reachable Sample.tools Sample.two_sessions ∧
  is_Some (t_eventStore Sample.streamable1) ∧
  t_eventStore Sample.sse3 = None.
Proof.
  split; [exact sample_two_sessions_reachable|].
  pose proof (event_store_per_streamable_session Sample.tools Sample.two_sessions
                sample_two_sessions_reachable) as (H & _).
  split.
  - apply (H Sample.id1 Sample.streamable1). reflexivity.
  - apply (H Sample.id2 Sample.sse3). reflexivity.
Defined.

(** ** [getServer] *)

(** X12. [getServer] returns a new server on which every element of
    [tools] has been registered, once each and in the order of the array;
    so every server it returns lists the same tools. *)
Theorem getServer_registers_every_tool (tools : list Tools.CallTool) (ref ref' : nat) :
  registeredTools (getServer tools ref) = tools ∧
  srv_ref (getServer tools ref) = ref ∧
  registeredTools (getServer tools ref') = registeredTools (getServer tools ref).
Proof.
  unfold getServer.
  destruct (fold_server_tool tools {| srv_ref := ref; registeredTools := [] |})
    as [Href Htools].
  destruct (fold_server_tool tools {| srv_ref := ref'; registeredTools := [] |})
    as [_ Htools'].
  rewrite Htools, Htools', Href. done.
Qed.

(** ** The handler does not compare the token *)




(** ** The test client *)

Lemma logged_app msg es1 es2 :
  logged msg (es1 ++ es2) = logged msg es1 + logged msg es2.
Proof.
  unfold logged, logs. by rewrite omap_app, List.filter_app, List.length_app.
Qed.

Lemma exits_app es1 es2 : exits (es1 ++ es2) = exits es1 ++ exits es2.
Proof. apply omap_app. Qed.

Lemma errors_app es1 es2 : errors (es1 ++ es2) = errors es1 ++ errors es2.
Proof. apply omap_app. Qed.

(** Closes the side goals about which answers clear the client. *)
Ltac cleared_iff :=
  first
    [ by (split; [done | intros (? & ? & ? & ? & ?); simplify_eq; congruence])
    | by (split; [intros _; eauto 10 | done])
    | by (intros ? ? ? ? ?; simplify_eq; congruence) ].

(** X14. [terminateSession] does nothing when the client is not
    connected.  Otherwise it clears the client and the transport together,
    and only together with the session id: exactly when the termination
    resolved with the session id of the transport cleared and the transport
    then closed; a client it has cleared refuses [listTools] and
    [callTool].  When the close rejects, the session id is cleared while
    client and transport stay.  It never ends the process and never changes
    the URL. *)
Theorem terminateSession_clears_client_and_transport_together
    (answers : TestClient.TerminateAnswers) (g : TestClient.Globals) :
  let r := TestClient.terminateSession answers g in
  TestClient.serverUrl r.1 = TestClient.serverUrl g ∧
  exits r.2 = [] ∧
  (TestClient.client g = None ∨ TestClient.transport g = None → r = (g, [])) ∧
  (is_Some (TestClient.client g) → is_Some (TestClient.transport g) →
     (TestClient.client r.1 = None ↔ TestClient.transport r.1 = None) ∧
     (TestClient.client r.1 = None ↔
        ∃ sid u, TestClient.on_terminateSession answers = TestClient.Resolves sid ∧
                 truthy_string sid = false ∧
                 TestClient.on_close answers = TestClient.Resolves u) ∧
     (TestClient.client r.1 = None →
        TestClient.sessionId r.1 = None ∧
        (∀ a, TestClient.listTools a r.1 = TestClient.Thrown "Not connected to server.") ∧
        (∀ n a, TestClient.callTool n a r.1 =
                  ([], TestClient.Thrown "Not connected to server."))) ∧
     (∀ sid error,
        TestClient.on_terminateSession answers = TestClient.Resolves sid →
        truthy_string sid = false →
        TestClient.on_close answers = TestClient.Rejects error →
        TestClient.sessionId r.1 = None ∧ TestClient.client r.1 = TestClient.client g)).
Proof.
  intros r. subst r. unfold TestClient.terminateSession.
  destruct (TestClient.client g) as [c|] eqn:Hc;
    [destruct (TestClient.transport g) as [tr|] eqn:Htr|].
  - destruct (TestClient.on_terminateSession answers) as [sid|error] eqn:Hterm.
    + cbn [TestClient.transport_sessionId].
      destruct (truthy_string sid) eqn:Hsid; cbn [negb];
        [|destruct (TestClient.on_close answers) as [u|error] eqn:Hclose];
        cbn; rewrite ?Hc, ?Htr;
        (split_and!; [done.. | by intros [?|?] |]); intros _ _;
        split_and!; try done; cleared_iff.
    + cbn; rewrite ?Hc, ?Htr.
      (split_and!; [done.. | by intros [?|?] |]); intros _ _.
      split_and!; try done; cleared_iff.
  - split_and!; [done.. |]. by intros _ [? ?].
  - split_and!; [done.. |]. by intros [? ?].
Qed.

Lemma terminateSession_connected answers g :
  is_Some (TestClient.client g) → is_Some (TestClient.transport g) →
  let r := TestClient.terminateSession answers g in
  logged "Terminating session with ID:" r.2 = 1 ∧
  logged "All tests passed successfully!" r.2 = 0 ∧
  exits r.2 = [] ∧
  "Error running test:" ∉ errors r.2.
Proof.
  intros [c Hc] [tr Htr] r. subst r. unfold TestClient.terminateSession.
  rewrite Hc, Htr.
  destruct (TestClient.on_terminateSession answers) as [sid|error];
    [cbn [TestClient.transport_sessionId];
     destruct (truthy_string sid); cbn [negb];
     [|destruct (TestClient.on_close answers)]|];
    cbn; (split_and!; [done.. |]); intros H;
    repeat (apply elem_of_cons in H as [H|H]; [discriminate H|]);
    by apply elem_of_nil in H.
Qed.

Lemma find_fake tools tool :
  List.find (λ tool, String.eqb (TestClient.tool_name tool) "fake") tools = Some tool →
  TestClient.tool_name tool = "fake".
Proof. intros [_ H]%List.find_some. by apply String.eqb_eq. Qed.

Lemma main_body_verdict answers g :
  let r := TestClient.main_body answers g in
  is_Some (TestClient.client r.1.1) ∧
  is_Some (TestClient.transport r.1.1) ∧
  logged "Terminating session with ID:" r.1.2 = 0 ∧
  exits r.1.2 = [] ∧
  errors r.1.2 = [] ∧
  match r.2 with
  | TestClient.Returned _ =>
      TestClient.passes answers ∧ logged "All tests passed successfully!" r.1.2 = 1
  | TestClient.Thrown _ =>
      ¬ TestClient.passes answers ∧ logged "All tests passed successfully!" r.1.2 = 0
  end.
Proof.
  intros r. subst r. unfold TestClient.main_body, TestClient.connect, TestClient.passes.
  destruct (TestClient.on_connect answers) as [sid|error] eqn:Hconnect.
  2:{ cbn. split_and!; try done. by intros (? & ? & ? & ? & ? & _). }
  unfold TestClient.listTools. cbn [TestClient.client].
  destruct (TestClient.on_listTools answers) as [tools|error] eqn:Hlist.
  2:{ cbn. split_and!; try done. by intros (? & ? & ? & ? & _ & ? & _). }
  destruct (List.find _ tools) as [tool|] eqn:Hfind.
  2:{ cbn. split_and!; try done.
      intros (? & ? & ? & ? & _ & [= <-] & ? & _). congruence. }
  rewrite (find_fake _ _ Hfind).
  unfold TestClient.callTool. cbn [TestClient.client].
  destruct (TestClient.on_callTool answers "fake" "John") as [content|error] eqn:Hcall.
  2:{ cbn. split_and!; try done. by intros (? & ? & ? & ? & _ & _ & _ & ?). }
  destruct content as [|[text] rest].
  { cbn. split_and!; try done. by intros (? & ? & ? & ? & _ & _ & _ & ?). }
  destruct (String.eqb_spec text TestClient.expectedGreeting) as [->|Hne]; cbn [negb].
  - cbn. split_and!; try done. by exists sid, tools, tool, rest.
  - cbn. split_and!; try done.
    intros (? & ? & ? & ? & _ & _ & _ & [= ? ?]). congruence.
Qed.

(** X15. A run of the test ([main] with its [catch] handler) passes, that
    is logs its success message once and does not end the process, exactly
    when every awaited call up to the tool call resolves, a tool named
    ["fake"] is listed, and its call for ["John"] returns the greeting
    ["Hello John!"] first; in every other case the error is logged and the
    process is asked to exit with status 1 as the last thing.  Either way
    the session is terminated once. *)
Theorem test_run_verdict (answers : TestClient.Answers) (g : TestClient.Globals) :
  let r := TestClient.main answers g in
  logged "Terminating session with ID:" r.2 = 1 ∧
  (TestClient.passes answers →
     logged "All tests passed successfully!" r.2 = 1 ∧
     exits r.2 = [] ∧
     ("Error running test:" ∉ errors r.2)) ∧
  (¬ TestClient.passes answers →
     logged "All tests passed successfully!" r.2 = 0 ∧
     exits r.2 = [1%Z] ∧
     last r.2 = Some (ProcessExit 1) ∧
     "Error running test:" ∈ errors r.2).
Proof.
  intros r. subst r. unfold TestClient.main.
  pose proof (main_body_verdict answers g) as (Hc & Ht & Hterm & Hexit & Herr & Hout).
  destruct (TestClient.main_body answers g) as [[g1 es1] out]. cbn [fst snd] in *.
  pose proof (terminateSession_connected (TestClient.on_terminate answers) g1 Hc Ht)
    as (Hterm2 & Hpass2 & Hexit2 & Herr2).
  destruct (TestClient.terminateSession _ g1) as [g2 es2]. cbn [fst snd] in *.
  destruct out as [u|error]; destruct Hout as [Hpasses Hlogged]; cbn [snd].
  - rewrite !logged_app, exits_app, errors_app, Hterm, Hterm2, Hlogged, Hpass2,
      Hexit, Hexit2, Herr.
    split_and!; [done | | done]. intros _. by split_and!.
  - rewrite !logged_app, !exits_app, !errors_app, Hterm, Hterm2, Hlogged, Hpass2,
      Hexit, Hexit2, Herr.
    split_and!; [done | done |]. intros _. split_and!; [done | done | |].
    + rewrite !app_assoc. apply last_snoc.
    + simpl. left.
Qed.

Lemma test_run_verdict_witness :
  TestClient.passes (TestClient.fake_server Sample.id1) ∧
  let r := TestClient.main (TestClient.fake_server Sample.id1) TestClient.start in
  logged "All tests passed successfully!" r.2 = 1 ∧
  exits r.2 = [] ∧
  r.1 = TestClient.start.
Proof.
  assert (TestClient.passes (TestClient.fake_server Sample.id1)) as Hpasses.
  { eexists _, _, _, _. split_and!; reflexivity. }
  split; [exact Hpasses|].
  pose proof (test_run_verdict (TestClient.fake_server Sample.id1) TestClient.start)
    as (_ & Hpass & _).
  destruct (Hpass Hpasses) as (H1 & H2 & _).
  split; [exact H1|]. split; [exact H2 | reflexivity].
Defined.
